(** * json_test_data.py: the JSON test corpus generator of jsonz

    A shallow embedding of [json_test_data.py].  The script builds one
    dictionary of partially random test values, prints every value on a
    line of its own and finally prints the whole dictionary.

    The embedding keeps the Python object model explicit: lists and
    dictionaries live in a store and are referred to by location, so that
    [copy], [list.append] and item assignment act on shared objects the
    way they do in Python.  Randomness, the store, standard output and the
    interpreter-wide integer-to-string digit limit are threaded through a
    state and error monad. *)

From Stdlib Require Import ZArith Lia String Ascii.
From stdpp Require Import base option list strings.

Set Warnings "-register-all".
Local Open Scope Z_scope.

(** ** Python values *)

(** A Python [str] is a sequence of Unicode code points. *)
Definition pystr := list Z.

(** Immediate (immutable) values are carried by value; [list] and [dict]
    objects are carried by reference, a location of the store.  A [Decimal] built
    from a numeric string keeps sign, digits and exponent exactly as
    written, so it is represented by that text.  A [float] is the pair
    mantissa, exponent of the binary64 number [m * 2^e]. *)
Inductive pyval : Type :=
| PNone
| PBool (b : bool)
| PStr (s : pystr)
| PInt (z : Z)
| PDecimal (text : pystr)
| PFloat (m e : Z)
| PRef (l : nat).

(** Dictionaries keep insertion order.  The keys of this program are all
    ASCII string literals. *)
Inductive pyobj : Type :=
| OList (xs : list pyval)
| ODict (kvs : list (string * pyval)).

(** The value handed to the serializer: the object graph read out of the
    store as a tree. *)
Inductive json : Type :=
| JNull
| JBool (b : bool)
| JStr (s : pystr)
| JInt (z : Z)
| JDecimal (text : pystr)
| JFloat (m e : Z)
| JArr (xs : list json)
| JObj (kvs : list (string * json)).

(** ** Interpreter state *)

Record state : Type := State {
  oracle : nat -> Z;          (* the random source: raw draw number i *)
  pos : nat;                  (* number of raw draws consumed *)
  heap : list pyobj;          (* the store, indexed by location *)
  stdout : string;            (* everything written to standard output *)
  int_max_str_digits : Z;     (* sys.get_int_max_str_digits() *)
  str_conversions : nat       (* int -> str conversions attempted so far *)
}.

(** A fresh interpreter: nothing allocated, nothing printed, the default
    digit limit of CPython. *)
Definition init (g : nat -> Z) : state := State g 0%nat [] "" 4300 0%nat.

Definition set_pos (n : nat) (st : state) : state :=
  State (oracle st) n (heap st) (stdout st) (int_max_str_digits st) (str_conversions st).
Definition set_heap (h : list pyobj) (st : state) : state :=
  State (oracle st) (pos st) h (stdout st) (int_max_str_digits st) (str_conversions st).
Definition set_stdout (s : string) (st : state) : state :=
  State (oracle st) (pos st) (heap st) s (int_max_str_digits st) (str_conversions st).
Definition set_limit (n : Z) (st : state) : state :=
  State (oracle st) (pos st) (heap st) (stdout st) n (str_conversions st).
Definition count_conversion (st : state) : state :=
  State (oracle st) (pos st) (heap st) (stdout st) (int_max_str_digits st) (S (str_conversions st)).

(** ** The state and exception monad *)

(** [None] is an uncaught exception: the run aborts. *)
Definition M (A : Type) : Type := state -> option (A * state).

Definition ret {A} (a : A) : M A := fun st => Some (a, st).
Definition raise {A} : M A := fun _ => None.
Definition bind {A B} (m : M A) (k : A -> M B) : M B :=
  fun st => match m st with
            | Some (a, st') => k a st'
            | None => None
            end.
Definition lift {A} (o : option A) : M A :=
  fun st => match o with Some a => Some (a, st) | None => None end.

Notation "'let*' x ':=' m 'in' k" := (bind m (fun x => k))
  (at level 10, x name, m at level 100, k at level 200).

Definition fmap {A B} (f : A -> B) (m : M A) : M B := let* a := m in ret (f a).

(** [[body for _ in range(n)]] and the generator expression of the same
    shape: [body] is run [n] times, left to right. *)
Fixpoint repeatM {A} (n : nat) (body : M A) : M (list A) :=
  match n with
  | O => ret []
  | S n' => let* a := body in let* rest := repeatM n' body in ret (a :: rest)
  end.
Definition list_comp_range {A} (n : Z) (body : M A) : M (list A) :=
  repeatM (Z.to_nat n) body.

(** [[f x for x in xs]]. *)
Fixpoint list_comp_in {A B} (xs : list A) (f : A -> M B) : M (list B) :=
  match xs with
  | [] => ret []
  | x :: xs' => let* b := f x in let* rest := list_comp_in xs' f in ret (b :: rest)
  end.

(** [for x in xs: body x]. *)
Fixpoint for_in {A} (xs : list A) (body : A -> M unit) : M unit :=
  match xs with
  | [] => ret tt
  | x :: xs' => let* _ := body x in for_in xs' body
  end.

(** ** The random module *)

(** [_randbelow(n)]: an integer in [[0, n)] taken from the next raw draw. *)
Definition randbelow (n : Z) : M Z :=
  fun st => if n <=? 0 then None
            else Some (oracle st (pos st) mod n, set_pos (S (pos st)) st).

(** [randint(a, b)] is [randrange(a, b+1)]: [ValueError] on an empty range,
    otherwise [a + _randbelow(b + 1 - a)]; both ends are included. *)
Definition randint (a b : Z) : M Z :=
  let width := b + 1 - a in
  if 0 <? width then let* r := randbelow width in ret (a + r) else raise.

(** [choices(population, k=k)]: [k] independent draws of an index below
    [len(population)], each followed by a subscript. *)
Definition choices {A} (population : list A) (k : Z) : M (list A) :=
  let n := Z.of_nat (length population) in
  list_comp_range k (let* i := randbelow n in lift (population !! Z.to_nat i)).

(** ** Strings *)

(** [chr(x)]: [ValueError] outside [range(0x110000)]. *)
Definition chr (x : Z) : M pystr :=
  if (0 <=? x) && (x <? 0x110000) then ret [x] else raise.

(** ["".join(parts)]. *)
Definition join (parts : list pystr) : pystr := concat parts.

(** A string literal of the source (ASCII only). *)
Fixpoint str (s : string) : pystr :=
  match s with
  | EmptyString => []
  | String c s' => Z.of_nat (nat_of_ascii c) :: str s'
  end.

(** Decimal digits of a non-negative integer, most significant first. *)
Fixpoint digits_aux (fuel : nat) (n : Z) (acc : pystr) : pystr :=
  match fuel with
  | O => acc
  | S fuel' =>
      let acc' := (48 + n mod 10) :: acc in
      if n <? 10 then acc' else digits_aux fuel' (n / 10) acc'
  end.
Definition digits (n : Z) : pystr := digits_aux (S (Z.to_nat (Z.log2 n))) n [].

(** [str(z)] for an [int], ignoring the digit limit. *)
Definition repr_int (z : Z) : pystr :=
  if z <? 0 then 45 :: digits (- z) else digits z.

(** [str(z)] as the interpreter performs it: [ValueError] when the number
    of digits exceeds a non-zero [int_max_str_digits]. *)
Definition format_int (z : Z) : M pystr :=
  fun st =>
    let st' := count_conversion st in
    let lim := int_max_str_digits st in
    if (0 <? lim) && (lim <? Z.of_nat (length (digits (Z.abs z)))) then None
    else Some (repr_int z, st').

(** [sys.set_int_max_str_digits(n)]: [n] must be [0] or at least the
    threshold 640. *)
Definition set_int_max_str_digits (n : Z) : M unit :=
  fun st => if (n =? 0) || (640 <=? n) then Some (tt, set_limit n st) else None.

(** ** Numbers *)

(** [ceil(log10(n))] for an integer [n >= 1]: the least [k] with
    [n <= 10^k].  [math.log10] returns a binary64 approximation; for the
    one argument of this program, [2^100000], the logarithm is
    30102.9995..., four parts in ten thousand away from the next integer,
    so that rounding does not change the ceiling. *)
Fixpoint ceil_log10_aux (fuel : nat) (k p n : Z) : Z :=
  if n <=? p then k
  else match fuel with
       | O => k
       | S fuel' => ceil_log10_aux fuel' (k + 1) (10 * p) n
       end.
Definition ceil_log10 (n : Z) : Z :=
  ceil_log10_aux (Z.to_nat (Z.log2_up n)) 0 1 n.

(** [float(n)] for an [int]: round to nearest, ties to even, on 53
    significant bits; [OverflowError] from [2^1024] on. *)
Definition float_of_int (n : Z) : M pyval :=
  let a := Z.abs n in
  let k := Z.log2 a + 1 - 53 in
  if k <=? 0 then ret (PFloat n 0)
  else
    let q := Z.shiftr a k in
    let r := Z.land a (Z.ones k) in
    let half := Z.shiftl 1 (k - 1) in
    let q' := if (half <? r) || ((r =? half) && Z.odd q) then q + 1 else q in
    if 2 ^ 1024 <=? q' * 2 ^ k then raise
    else ret (PFloat (Z.sgn n * q') k).

(** Unary minus. *)
Definition neg (v : pyval) : M pyval :=
  match v with
  | PInt z => ret (PInt (- z))
  | PFloat m e => ret (PFloat (- m) e)
  | PBool b => ret (PInt (- (if b then 1 else 0)))
  | _ => raise
  end.

(** ** Objects in the store *)

Definition alloc (o : pyobj) : M pyval :=
  fun st => Some (PRef (length (heap st)), set_heap (heap st ++ [o]) st).

Definition deref (v : pyval) : M pyobj :=
  fun st => match v with
            | PRef l => match heap st !! l with
                        | Some o => Some (o, st)
                        | None => None
                        end
            | _ => None
            end.

Definition store (v : pyval) (o : pyobj) : M unit :=
  fun st => match v with
            | PRef l => if decide (l < length (heap st))%nat
                        then Some (tt, set_heap (<[l := o]> (heap st)) st)
                        else None
            | _ => None
            end.

(** [d[k]] on the entries of a dictionary. *)
Fixpoint assoc (kvs : list (string * pyval)) (k : string) : option pyval :=
  match kvs with
  | [] => None
  | (k', v) :: rest => if decide (k' = k) then Some v else assoc rest k
  end.

(** [d[k] = v] on the entries: an existing key keeps its place, a new key
    goes last. *)
Fixpoint assoc_set (kvs : list (string * pyval)) (k : string) (v : pyval)
  : list (string * pyval) :=
  match kvs with
  | [] => [(k, v)]
  | (k', v') :: rest =>
      if decide (k' = k) then (k', v) :: rest else (k', v') :: assoc_set rest k v
  end.

(** A list display [[x1, ..., xn]]. *)
Definition new_list (xs : list pyval) : M pyval := alloc (OList xs).

(** A dictionary display [{k1: x1, ..., kn: xn}] whose values have been
    evaluated: the keys are stored left to right. *)
Definition new_dict (kvs : list (string * pyval)) : M pyval :=
  alloc (ODict (fold_left (fun acc kv => assoc_set acc kv.1 kv.2) kvs [])).

(** [copy.copy(x)] for a list or a dictionary: a new object with the same
    elements. *)
Definition copy (v : pyval) : M pyval := let* o := deref v in alloc o.

(** [l.append(x)]. *)
Definition list_append (l x : pyval) : M unit :=
  let* o := deref l in
  match o with
  | OList xs => store l (OList (xs ++ [x]))
  | ODict _ => raise
  end.

(** [d[k]]: [KeyError] when the key is missing. *)
Definition getitem (d : pyval) (k : string) : M pyval :=
  let* o := deref d in
  match o with
  | ODict kvs => lift (assoc kvs k)
  | OList _ => raise
  end.

(** [d[k] = v]. *)
Definition setitem (d : pyval) (k : string) (v : pyval) : M unit :=
  let* o := deref d in
  match o with
  | ODict kvs => store d (ODict (assoc_set kvs k v))
  | OList _ => raise
  end.

(** The keys of a dictionary in iteration order. *)
Definition keys (d : pyval) : M (list string) :=
  let* o := deref d in
  match o with
  | ODict kvs => ret (map fst kvs)
  | OList _ => raise
  end.

(** ** Output *)

Definition newline : string := String (ascii_of_nat 10) EmptyString.

(** [print(s, end=e)]. *)
Definition print (s e : string) : M unit :=
  fun st => Some (tt, set_stdout (stdout st +:+ s +:+ e) st).

(** Reading a value out of the store as a tree.  The depth bound plays the
    part of the serializer's circular-reference check: a path longer than
    the number of objects in the store visits some object twice. *)
Fixpoint reify (fuel : nat) (h : list pyobj) (v : pyval) : option json :=
  match v with
  | PNone => Some JNull
  | PBool b => Some (JBool b)
  | PStr s => Some (JStr s)
  | PInt z => Some (JInt z)
  | PDecimal t => Some (JDecimal t)
  | PFloat m e => Some (JFloat m e)
  | PRef l =>
      match fuel with
      | O => None
      | S fuel' =>
          match h !! l with
          | Some (OList xs) => JArr <$> mapM (reify fuel' h) xs
          | Some (ODict kvs) =>
              JObj <$> mapM (fun kv => pair kv.1 <$> reify fuel' h kv.2) kvs
          | None => None
          end
      end
  end.

(** * The program *)

(** ** Module-level constants (lines 24-27) *)

Definition INT_UPPER_LIMIT : Z := 2 ^ 100000.

(** [list(range(a, b))]. *)
Fixpoint range_from (n : nat) (a : Z) : list Z :=
  match n with
  | O => []
  | S n' => a :: range_from n' (a + 1)
  end.
Definition range (a b : Z) : list Z := range_from (Z.to_nat (b - a)) a.

Definition VALID_UTF8_CHARS : list Z := range 0 0xD800 ++ range 0xE000 0x110000.

(** ** Expressions used by several entries of [test_object]

    Temporaries that are dropped as soon as the expression is evaluated
    (the operand of [[x] * n], the population handed to [choices]) are not
    allocated in the store; every object that ends up in the dictionary
    is. *)

(** [randint(a, b)] as a value. *)
Definition randint_v (a b : Z) : M pyval := fmap PInt (randint a b).

(** [-randint(a, b)]. *)
Definition neg_randint (a b : Z) : M pyval := let* v := randint_v a b in neg v.

(** ["".join(chr(randint(0, 127)) for x in range(k))]. *)
Definition ascii_string (k : Z) : M pyval :=
  let* parts := list_comp_range k (let* c := randint 0 127 in chr c) in
  ret (PStr (join parts)).

(** ["".join(chr(x) for x in choices(VALID_UTF8_CHARS, k=k))]. *)
Definition utf8_string (k : Z) : M pyval :=
  let* xs := choices VALID_UTF8_CHARS k in
  let* parts := list_comp_in xs chr in
  ret (PStr (join parts)).

(** [Decimal(text)]. *)
Definition Decimal (text : pystr) : M pyval := ret (PDecimal text).

(** [Decimal(f"{prefix}{randint(a, b)}.{randint(c, d)}")]: each
    replacement field is evaluated and formatted before the next one. *)
Definition decimal_of_parts (prefix : string) (a b c d : Z) : M pyval :=
  let* x := randint a b in
  let* sx := format_int x in
  let* y := randint c d in
  let* sy := format_int y in
  Decimal (str prefix ++ sx ++ str "." ++ sy).

(** [float(randint(a, b))]. *)
Definition float_randint (a b : Z) : M pyval :=
  let* n := randint a b in float_of_int n.

(** [[x] * n]. *)
Definition repeat_list (x : pyval) (n : Z) : M pyval :=
  new_list (concat (replicate (Z.to_nat n) [x])).

(** [[body for x in range(n)]] as a list object. *)
Definition array_of (n : Z) (body : M pyval) : M pyval :=
  let* xs := list_comp_range n body in new_list xs.

(** ** The dictionary display [test_object] (lines 29-90) *)

Definition test_object_items : list (string * M pyval) :=
  [ ("boolean true", ret (PBool true));
    ("boolean false", ret (PBool false));
    ("null", ret PNone);
    ("string 0", ret (PStr (str "")));
    ("string ascii", ascii_string 100000);
    ("string utf-8", utf8_string 100000);
    ("resizing integer 1", randint_v 4294967296 72057594037927935);
    ("resizing integer 2", randint_v 18446744073709551616 (2 ^ 2040 - 1));
    ("negative resizing integer 1", neg_randint 4294967296 72057594037927935);
    ("negative resizing integer 2", neg_randint 18446744073709551616 (2 ^ 2040 - 1));
    ("unsigned 8-bit defined integer", randint_v 0 255);
    ("unsigned 8-bit defined integer 2", ret (PInt 0));
    ("unsigned 16-bit defined integer", randint_v 256 65535);
    ("unsigned 24-bit defined integer", randint_v 65536 16777215);
    ("unsigned 32-bit defined integer", randint_v 16777216 4294967295);
    ("unsigned 64-bit defined integer", randint_v 72057594037927936 18446744073709551615);
    ("negative 8-bit defined integer", neg_randint 0 255);
    ("negative 16-bit defined integer", neg_randint 256 65535);
    ("negative 24-bit defined integer", neg_randint 65536 16777215);
    ("negative 32-bit defined integer", neg_randint 16777216 4294967295);
    ("negative 64-bit defined integer", neg_randint 72057594037927936 18446744073709551615);
    ("big integer", randint_v (2 ^ 2040) INT_UPPER_LIMIT);
    ("negative big integer", neg_randint (2 ^ 2040) INT_UPPER_LIMIT);
    ("decimal 1", decimal_of_parts "" 0 INT_UPPER_LIMIT 0 INT_UPPER_LIMIT);
    ("decimal 2", decimal_of_parts "-" 0 INT_UPPER_LIMIT 0 INT_UPPER_LIMIT);
    ("decimal 3", float_randint (2 ^ 54) (2 ^ 1000));
    ("decimal 4", let* f := float_randint (2 ^ 54) (2 ^ 1000) in neg f);
    ("object 1", new_dict [("meow", PStr (str "meow"))]);
    ("object 2", new_dict []);
    ("object 3", let* inner := new_dict [] in new_dict [("meow", inner)]);
    ("multi-type array 1", new_list []);
    ("multi-type array 2", let* inner := new_list [] in repeat_list inner 100);
    ("null array 1", new_list [PNone]);
    ("null array 2", repeat_list PNone 10000);
    ("bool array 1", new_list [PBool true]);
    ("bool array 2", repeat_list (PBool true) 10000);
    ("bool array 3", new_list [PBool false]);
    ("bool array 4", repeat_list (PBool false) 10000);
    ("bool array 5",
     let* xs := choices [PBool true; PBool false] 10000 in new_list xs);
    ("string array 1", array_of 1000 (utf8_string 100));
    ("string array 2", array_of 10000 (utf8_string 2));
    ("resizing integer array", array_of 10000 (neg_randint 4294967296 72057594037927935));
    ("negative resizing integer array",
     array_of 10000 (neg_randint 4294967296 72057594037927935));
    ("unsigned 8-bit defined integer array", array_of 10000 (randint_v 0 255));
    ("unsigned 16-bit defined integer array", array_of 10000 (randint_v 256 65535));
    ("unsigned 24-bit defined integer array", array_of 10000 (randint_v 65536 16777215));
    ("unsigned 32-bit defined integer array",
     array_of 10000 (randint_v 16777216 4294967295));
    ("unsigned 64-bit defined integer array",
     array_of 10000 (randint_v 72057594037927936 18446744073709551615));
    ("negative 8-bit defined integer array", array_of 10000 (neg_randint 0 255));
    ("negative 16-bit defined integer array", array_of 10000 (neg_randint 256 65535));
    ("negative 24-bit defined integer array",
     array_of 10000 (neg_randint 65536 16777215));
    ("negative 32-bit defined integer array",
     array_of 10000 (neg_randint 16777216 4294967295));
    ("negative 64-bit defined integer array",
     array_of 10000 (neg_randint 72057594037927936 18446744073709551615));
    ("big integer array", array_of 100 (randint_v (2 ^ 2040) INT_UPPER_LIMIT));
    ("negative big integer array", array_of 100 (randint_v (2 ^ 2040) INT_UPPER_LIMIT));
    ("decimal array",
     array_of 100 (decimal_of_parts "" (- INT_UPPER_LIMIT) INT_UPPER_LIMIT 0 INT_UPPER_LIMIT))
  ]%string.

(** A dictionary display: the values are evaluated top to bottom, then
    the dictionary is created. *)
Definition dict_display (items : list (string * M pyval)) : M pyval :=
  let* kvs := list_comp_in items (fun kv => let* v := kv.2 in ret (kv.1, v)) in
  new_dict kvs.

Definition test_object : M pyval := dict_display test_object_items.

(** ** Lines 92-94 *)

Definition multi_type_array_3 (test_object : pyval) : M unit :=
  let* ks := keys test_object in
  let* values := list_comp_in ks (getitem test_object) in
  let* multi_type_array_3 := new_list values in
  let* c := copy multi_type_array_3 in
  let* _ := list_append multi_type_array_3 c in
  setitem test_object "multi-type array 3" multi_type_array_3.

(** The corpus as it stands before anything is printed. *)
Definition corpus : M pyval :=
  let* d := test_object in
  let* _ := multi_type_array_3 d in
  ret d.

(** Line 27. *)
Definition preamble : M unit :=
  set_int_max_str_digits (2 * ceil_log10 INT_UPPER_LIMIT + 1).

(** Lines 24-94: everything up to the first [print]. *)
Definition build : M pyval :=
  let* _ := preamble in corpus.

(** Reading the result: the entry of a dictionary under a label, and the
    elements of a list. *)
Definition lookup_entry (st : state) (d : pyval) (k : string) : option pyval :=
  match d with
  | PRef l => match heap st !! l with
              | Some (ODict kvs) => assoc kvs k
              | _ => None
              end
  | _ => None
  end.

Definition elements (st : state) (v : pyval) : option (list pyval) :=
  match v with
  | PRef l => match heap st !! l with
              | Some (OList xs) => Some xs
              | _ => None
              end
  | _ => None
  end.

(** The entry under label [k] is an integer with property [P]. *)
Definition int_entry (st : state) (d : pyval) (k : string) (P : Z -> Prop) : Prop :=
  exists z, lookup_entry st d k = Some (PInt z) /\ P z.

(** The entry under label [k] is a list of [n] integers that all have
    property [P]. *)
Definition int_array_entry (st : state) (d : pyval) (k : string) (n : Z)
    (P : Z -> Prop) : Prop :=
  exists v xs,
    lookup_entry st d k = Some v /\ elements st v = Some xs /\
    Z.of_nat (length xs) = n /\
    Forall (fun x => exists z, x = PInt z /\ P z) xs.


Definition dict_items (st : state) (d : pyval) : option (list (string * pyval)) :=
  match d with
  | PRef l => match heap st !! l with
              | Some (ODict kvs) => Some kvs
              | _ => None
              end
  | _ => None
  end.

(** Every string value occurring anywhere in a tree. *)
Fixpoint json_strings (j : json) : list pystr :=
  match j with
  | JStr s => [s]
  | JArr xs => concat (map json_strings xs)
  | JObj kvs => concat (map (fun kv => let '(_, v) := kv in json_strings v) kvs)
  | _ => []
  end.

(** No surrogate, and inside the Unicode range. *)
Definition non_surrogate (c : Z) : Prop :=
  0 <= c < 0x110000 /\ ~ (0xD800 <= c <= 0xDFFF).

(** ** Lines 96-101: emission *)

Section Emission.

(** [dumps] of [json_with_decimals]: the serializer, which this program
    only calls. *)
Variable dumps : json -> string.

(** [dumps(v)] on an object of the store; a circular structure is an
    error. *)
Definition dumps_value (v : pyval) : M string :=
  fun st => match reify (S (length (heap st))) (heap st) v with
            | Some j => Some (dumps j, st)
            | None => None
            end.

Definition emit (test_object : pyval) : M unit :=
  let* ks := keys test_object in
  let* _ := for_in ks (fun x =>
              let* v := getitem test_object x in
              let* s := dumps_value v in
              print s newline) in
  let* c := copy test_object in
  let* _ := setitem test_object "object 4" c in
  let* s := dumps_value test_object in
  print s "".

(** A sequence of records, each terminated by a newline. *)
Fixpoint records (js : list json) : string :=
  match js with
  | [] => ""
  | j :: rest => dumps j +:+ newline +:+ records rest
  end.

(** The whole script. *)
Definition main : M unit :=
  let* _ := preamble in
  let* d := corpus in
  emit d.

End Emission.

(** ** Reading the output and the texts

    What a consumer of the script does with its results: the docstring's
    step 2 splits the output on the newline character, and a decimal
    text is read digit by digit. *)

(** [s.split(sep)] for a one-character separator. *)
Fixpoint split_on (sep : ascii) (s : string) : list string :=
  match s with
  | EmptyString => [EmptyString]
  | String c rest =>
      if Ascii.eqb c sep then EmptyString :: split_on sep rest
      else match split_on sep rest with
           | first :: others => String c first :: others
           | [] => [String c EmptyString]
           end
  end.

(** [sep in s]. *)
Fixpoint has_char (sep : ascii) (s : string) : bool :=
  match s with
  | EmptyString => false
  | String c rest => Ascii.eqb c sep || has_char sep rest
  end.

(** The code points of the digits ["0"] to ["9"]. *)
Definition is_digit (c : Z) : Prop := 48 <= c <= 57.

(** The number a sequence of digits denotes, most significant first. *)
Definition digits_value (ds : pystr) : Z :=
  fold_left (fun acc c => 10 * acc + (c - 48)) ds 0.

(** * Specification vocabulary

    The predicates the verification is stated with: well-formed stores,
    total correctness of a building step, what a step returns, and the
    tree of a value. *)

(** Code points a Python [str] of this corpus may hold: everything but
    the surrogates. *)
Definition valid_code_point (c : Z) : Prop :=
  0 <= c < 0xD800 \/ 0xE000 <= c < 0x110000.

(** A value is well-formed below [n] when it refers to an object
    allocated before location [n] and, as a string, holds valid code
    points only. *)
Definition val_ok (n : nat) (v : pyval) : Prop :=
  match v with
  | PRef l => (l < n)%nat
  | PStr s => Forall valid_code_point s
  | _ => True
  end.

Definition obj_ok (n : nat) (o : pyobj) : Prop :=
  match o with
  | OList xs => Forall (val_ok n) xs
  | ODict kvs => Forall (fun kv => val_ok n kv.2) kvs
  end.

(** Every object only refers to objects allocated before it. *)
Definition heap_ok (h : list pyobj) : Prop :=
  forall l o, h !! l = Some o -> obj_ok l o.

(** The digit limit in force lets every integer up to the upper limit
    be converted. *)
Definition limit_ok (st : state) : Prop :=
  forall z, Z.abs z <= INT_UPPER_LIMIT ->
    Z.of_nat (length (digits (Z.abs z))) <= int_max_str_digits st.

Record good (st : state) : Prop := Good {
  good_heap : heap_ok (heap st);
  good_limit : limit_ok st
}.

(** What building a value may change: it draws random numbers, converts
    integers and allocates. *)
Definition ext (st st' : state) : Prop :=
  oracle st' = oracle st /\ stdout st' = stdout st /\
  int_max_str_digits st' = int_max_str_digits st /\
  heap st `prefix_of` heap st'.

(** Total correctness of a building step. *)
Definition builds {A} (P : state -> Prop) (m : M A) (Q : state -> A -> Prop) : Prop :=
  forall st, good st -> P st ->
    exists a st', m st = Some (a, st') /\ good st' /\ ext st st' /\ Q st' a.

Definition any_state : state -> Prop := fun _ => True.

(** The value is well-formed in the store of [st]. *)
Definition value_in (st : state) (v : pyval) : Prop := val_ok (length (heap st)) v.

(** A property of a result that later building steps cannot undo. *)
Definition stable {A} (Q : state -> A -> Prop) : Prop :=
  forall st st' a, ext st st' -> Q st a -> Q st' a.

(** [z] is what [randint(a, b)] makes of some raw draw of the run. *)
Definition drawn (a b : Z) (st : state) (z : Z) : Prop :=
  exists i, z = a + oracle st i mod (b + 1 - a).

(** The value is a reference to the object [o]. *)
Definition points_to (st : state) (v : pyval) (o : pyobj) : Prop :=
  exists l, v = PRef l /\ heap st !! l = Some o.

(** The value is a list object of [n] elements that all satisfy [E]. *)
Definition list_of (E : state -> pyval -> Prop) (n : nat) (st : state) (v : pyval) : Prop :=
  exists xs, points_to st v (OList xs) /\ Forall (E st) xs /\ length xs = n.

Definition int_drawn (a b : Z) (st : state) (v : pyval) : Prop :=
  exists z, v = PInt z /\ drawn a b st z.

Definition neg_int_drawn (a b : Z) (st : state) (v : pyval) : Prop :=
  exists z, v = PInt (- z) /\ drawn a b st z.

(** A string of [n] code points that all satisfy [C]. *)
Definition string_of (C : Z -> Prop) (n : nat) (v : pyval) : Prop :=
  exists s, v = PStr s /\ Forall C s /\ length s = n.

Definition is_decimal (v : pyval) : Prop := exists t, v = PDecimal t.

Definition is_float (v : pyval) : Prop := exists m e, v = PFloat m e.

(** An entry evaluates to a well-formed value with property [Q]. *)
Definition entry_spec (m : M pyval) (Q : state -> pyval -> Prop) : Prop :=
  builds any_state m (fun st v => value_in st v /\ Q st v).

(** An entry that evaluates to some well-formed value. *)
Definition entry_ok (m : M pyval) : Prop := builds any_state m value_in.

(** The labels of [test_object], top to bottom. *)
Definition labels : list string :=
  Eval cbv [map fst test_object_items] in map fst test_object_items.

Definition strings_ok (j : json) : Prop :=
  Forall (Forall valid_code_point) (json_strings j).

(** A well-formed value has a tree, the same at every sufficient depth
    and in every extension of the store, and the tree holds valid strings
    only. *)
Definition has_tree (h0 : list pyobj) (n : nat) (v : pyval) (j : json) : Prop :=
  (forall m rest, (n <= m)%nat -> reify m (h0 ++ rest) v = Some j) /\ strings_ok j.

(** [m * 2^e] is the integer [n >= 2^53] rounded to 53 significant bits:
    the exponent is the one of [n] and the error is at most half a unit
    in the last place. *)
Definition nearest_float (n m e : Z) : Prop :=
  e = Z.log2 n - 52 /\ 2 ^ 52 <= m <= 2 ^ 53 /\ 2 * Z.abs (m * 2 ^ e - n) <= 2 ^ e.

(** The value is [float(n)], or its negation, for a draw [n] of
    [randint(a, b)]. *)
Definition float_drawn (negated : bool) (a b : Z) (st : state) (v : pyval) : Prop :=
  exists n m e, drawn a b st n /\ nearest_float n m e /\
                v = PFloat (if negated then - m else m) e.

(** The value is [Decimal(f"{prefix}{x}.{y}")] for draws [x] of
    [randint(a, b)] and [y] of [randint(c, d)]. *)
Definition decimal_drawn (prefix : string) (a b c d : Z) (st : state) (v : pyval) : Prop :=
  exists x y, drawn a b st x /\ drawn c d st y /\
              v = PDecimal (str prefix ++ repr_int x ++ str "." ++ repr_int y).

(** * Verification *)

(** ** Arithmetic of the module-level constants *)

Lemma pow2_2040_lt_limit : 2 ^ 2040 < INT_UPPER_LIMIT.
Proof. unfold INT_UPPER_LIMIT. apply Z.pow_lt_mono_r; lia. Qed.

Lemma limit_pos : 0 < INT_UPPER_LIMIT.
Proof. unfold INT_UPPER_LIMIT. apply Z.pow_pos_nonneg; lia. Qed.

Lemma pow2_2040_pos : 0 < 2 ^ 2040.
Proof. apply Z.pow_pos_nonneg; lia. Qed.

Lemma ceil_log10_aux_spec (fuel : nat) :
  forall k p n, 0 < p -> n <= p * 10 ^ Z.of_nat fuel ->
    k <= ceil_log10_aux fuel k p n /\
    n <= p * 10 ^ (ceil_log10_aux fuel k p n - k).
Proof.
  induction fuel as [|fuel IH]; intros k p n Hp Hn.
  - simpl in *. destruct (Z.leb_spec n p); [|lia].
    rewrite Z.sub_diag. simpl. lia.
  - cbn [ceil_log10_aux]. destruct (Z.leb_spec n p).
    + rewrite Z.sub_diag. simpl. lia.
    + rewrite Nat2Z.inj_succ, Z.pow_succ_r in Hn by lia.
      destruct (IH (k + 1) (10 * p) n) as [Hk Hle]; [lia | lia |].
      split; [lia|].
      replace (ceil_log10_aux fuel (k + 1) (10 * p) n - k)
        with (Z.succ (ceil_log10_aux fuel (k + 1) (10 * p) n - (k + 1))) by lia.
      rewrite Z.pow_succ_r by lia. lia.
Qed.

(** [ceil_log10 n] is an exponent [k >= 0] with [n <= 10^k]. *)
Lemma ceil_log10_spec (n : Z) :
  1 <= n -> 0 <= ceil_log10 n /\ n <= 10 ^ ceil_log10 n.
Proof.
  intros Hn. unfold ceil_log10.
  destruct (ceil_log10_aux_spec (Z.to_nat (Z.log2_up n)) 0 1 n) as [H0 Hle].
  - lia.
  - rewrite Z2Nat.id by apply Z.log2_up_nonneg. rewrite Z.mul_1_l.
    transitivity (2 ^ Z.log2_up n).
    + destruct (Z.eq_dec n 1) as [->|]; [rewrite Z.log2_up_1; simpl; lia|].
      apply Z.log2_up_spec. lia.
    + apply Z.pow_le_mono_l. lia.
  - rewrite Z.sub_0_r, Z.mul_1_l in Hle. auto.
Qed.

Lemma ceil_log10_lower (n k : Z) :
  1 <= n -> 0 <= k -> 10 ^ k < n -> k < ceil_log10 n.
Proof.
  intros Hn Hk Hlt. destruct (ceil_log10_spec n Hn) as [H0 Hle].
  destruct (Z.lt_ge_cases k (ceil_log10 n)) as [|Hge]; [assumption|].
  assert (10 ^ ceil_log10 n <= 10 ^ k) by (apply Z.pow_le_mono_r; lia). lia.
Qed.

(** The argument of [set_int_max_str_digits] is above the threshold. *)
Lemma limit_digits_large : 640 <= 2 * ceil_log10 INT_UPPER_LIMIT + 1.
Proof.
  assert (320 < ceil_log10 INT_UPPER_LIMIT); [|lia].
  pose proof limit_pos.
  apply ceil_log10_lower; [lia | lia |].
  unfold INT_UPPER_LIMIT.
  apply Z.lt_trans with (16 ^ 320).
  - apply Z.pow_lt_mono_l; lia.
  - change 16 with (2 ^ 4). rewrite <- Z.pow_mul_r by lia.
    apply Z.pow_lt_mono_r; lia.
Qed.

Lemma digits_aux_length (fuel : nat) :
  forall n k acc, 0 <= n < 10 ^ k -> 1 <= k ->
    Z.of_nat (length (digits_aux fuel n acc)) <= Z.of_nat (length acc) + k.
Proof.
  induction fuel as [|fuel IH]; intros n k acc Hn Hk.
  - simpl. lia.
  - cbn [digits_aux]. destruct (Z.ltb_spec n 10).
    + cbn [length]. lia.
    + assert (2 <= k).
      { destruct (Z.eq_dec k 1) as [->|]; [|lia]. simpl in Hn. lia. }
      etransitivity.
      * apply (IH (n / 10) (k - 1)); [|lia].
        split; [apply Z.div_pos; lia|].
        apply Z.div_lt_upper_bound; [lia|].
        rewrite <- Z.pow_succ_r by lia. replace (Z.succ (k - 1)) with k by lia. lia.
      * cbn [length]. lia.
Qed.

(** A number below [10^k] has at most [k] digits. *)
Lemma digits_length (n k : Z) :
  0 <= n < 10 ^ k -> 1 <= k -> Z.of_nat (length (digits n)) <= k.
Proof.
  intros Hn Hk. unfold digits.
  pose proof (digits_aux_length (S (Z.to_nat (Z.log2 n))) n k [] Hn Hk) as H.
  simpl length in H at 2. lia.
Qed.

(** Every integer the corpus draws fits the configured digit limit. *)
Lemma digits_within_limit (z : Z) :
  Z.abs z <= INT_UPPER_LIMIT ->
  Z.of_nat (length (digits (Z.abs z))) <= 2 * ceil_log10 INT_UPPER_LIMIT + 1.
Proof.
  intros Hz. pose proof limit_pos.
  destruct (ceil_log10_spec INT_UPPER_LIMIT) as [H0 Hle]; [lia|].
  pose proof limit_digits_large.
  etransitivity.
  - apply (digits_length _ (ceil_log10 INT_UPPER_LIMIT + 1)); [|lia].
    split; [lia|]. rewrite Z.pow_add_r by lia. simpl (10 ^ 1). lia.
  - lia.
Qed.

(** ** Well-formed stores *)

Lemma ext_refl st : ext st st.
Proof. repeat split; reflexivity. Qed.

Lemma ext_trans st1 st2 st3 : ext st1 st2 -> ext st2 st3 -> ext st1 st3.
Proof.
  intros (?&?&?&?) (?&?&?&?). repeat split; try congruence.
  etransitivity; eassumption.
Qed.

Lemma ext_length st st' : ext st st' -> (length (heap st) <= length (heap st'))%nat.
Proof. intros (_&_&_&H). by apply prefix_length. Qed.

Lemma val_ok_mono n m v : (n <= m)%nat -> val_ok n v -> val_ok m v.
Proof. destruct v; simpl; auto; lia. Qed.

Lemma value_in_ext st st' v : ext st st' -> value_in st v -> value_in st' v.
Proof. intros H. apply val_ok_mono. by apply ext_length. Qed.

Lemma heap_ok_snoc h o : heap_ok h -> obj_ok (length h) o -> heap_ok (h ++ [o]).
Proof.
  intros Hh Ho l o' Hl.
  apply lookup_app_Some in Hl as [Hl | [Hlen Hl]]; [by apply Hh|].
  apply list_lookup_singleton_Some in Hl as [Hl ->].
  by replace l with (length h) by lia.
Qed.

Lemma good_set_pos n st : good st -> good (set_pos n st).
Proof. intros [Hh Hl]. by split. Qed.

Lemma ext_set_pos n st : ext st (set_pos n st).
Proof. repeat split; reflexivity. Qed.

(** *** Rules *)

Lemma builds_ret {A} (P : state -> Prop) (Q : state -> A -> Prop) a :
  (forall st, good st -> P st -> Q st a) -> builds P (ret a) Q.
Proof. intros H st Hg HP. exists a, st. eauto using ext_refl. Qed.

Lemma builds_bind {A B} P (m : M A) (k : A -> M B) Q1 Q2 :
  builds P m Q1 -> (forall a, builds (fun st => Q1 st a) (k a) Q2) ->
  builds P (bind m k) Q2.
Proof.
  intros Hm Hk st Hg HP.
  destruct (Hm st Hg HP) as (a & st1 & E1 & Hg1 & Hx1 & HQ1).
  destruct (Hk a st1 Hg1 HQ1) as (b & st2 & E2 & Hg2 & Hx2 & HQ2).
  exists b, st2. unfold bind. rewrite E1. eauto using ext_trans.
Qed.

Lemma builds_weaken {A} (P P' : state -> Prop) (m : M A) (Q Q' : state -> A -> Prop) :
  builds P m Q -> (forall st, P' st -> P st) -> (forall st a, Q st a -> Q' st a) ->
  builds P' m Q'.
Proof.
  intros Hm HP HQ st Hg HP'.
  destruct (Hm st Hg (HP _ HP')) as (a & st' & ? & ? & ? & ?).
  exists a, st'. eauto.
Qed.

Lemma builds_randint P a b :
  a <= b -> builds P (randint a b) (fun _ z => a <= z <= b).
Proof.
  intros Hab st Hg _. unfold randint, bind, randbelow, ret.
  destruct (Z.ltb_spec 0 (b + 1 - a)); [|lia].
  destruct (Z.leb_spec (b + 1 - a) 0); [lia|].
  eexists _, _. split; [reflexivity|].
  split; [by apply good_set_pos|]. split; [apply ext_set_pos|].
  pose proof (Z.mod_pos_bound (oracle st (pos st)) (b + 1 - a)). lia.
Qed.

(** Running a body [n] times keeps every property of the results that
    survives later allocations. *)
Lemma builds_repeatM {A} (body : M A) (Q : state -> A -> Prop) (n : nat) :
  (forall st st' a, ext st st' -> Q st a -> Q st' a) ->
  builds any_state body Q ->
  builds any_state (repeatM n body)
    (fun st xs => Forall (Q st) xs /\ length xs = n).
Proof.
  intros Hstable Hbody. induction n as [|n IH].
  - apply builds_ret. intros. split; [constructor | reflexivity].
  - intros st Hg _. cbn [repeatM]. unfold bind.
    destruct (Hbody st Hg I) as (a & st1 & E1 & Hg1 & Hx1 & HQ1).
    destruct (IH st1 Hg1 I) as (xs & st2 & E2 & Hg2 & Hx2 & HF & Hlen).
    rewrite E1, E2. eexists _, _. split; [reflexivity|].
    split; [exact Hg2|]. split; [eauto using ext_trans|].
    split; [|simpl; congruence]. constructor; eauto.
Qed.

Lemma builds_list_comp_range {A} (body : M A) (Q : state -> A -> Prop) (n : Z) :
  (forall st st' a, ext st st' -> Q st a -> Q st' a) ->
  builds any_state body Q ->
  builds any_state (list_comp_range n body)
    (fun st xs => Forall (Q st) xs /\ length xs = Z.to_nat n).
Proof. intros. unfold list_comp_range. by apply builds_repeatM. Qed.

Lemma builds_list_comp_in {A B} (R : A -> Prop) (f : A -> M B) (Q : B -> Prop) xs :
  (forall x, R x -> builds any_state (f x) (fun _ b => Q b)) ->
  Forall R xs ->
  builds any_state (list_comp_in xs f)
    (fun _ bs => Forall Q bs /\ length bs = length xs).
Proof.
  intros Hf. induction 1 as [|x xs Hx Hxs IH].
  - apply builds_ret. intros. split; [constructor | reflexivity].
  - intros st Hg _. cbn [list_comp_in]. unfold bind.
    destruct (Hf x Hx st Hg I) as (b & st1 & E1 & Hg1 & Hx1 & HQ1).
    destruct (IH st1 Hg1 I) as (bs & st2 & E2 & Hg2 & Hx2 & HF & Hlen).
    rewrite E1, E2. eexists _, _. split; [reflexivity|].
    split; [exact Hg2|]. split; [eauto using ext_trans|].
    split; [by constructor | simpl; congruence].
Qed.

Lemma builds_choices {A} (population : list A) (k : Z) :
  population <> [] ->
  builds any_state (choices population k)
    (fun _ xs => Forall (fun x => x ∈ population) xs /\ length xs = Z.to_nat k).
Proof.
  intros Hne. unfold choices. cbv zeta.
  apply builds_list_comp_range; [auto|].
  intros st Hg _. unfold bind, randbelow, lift.
  destruct (Z.leb_spec (Z.of_nat (length population)) 0) as [Hle|Hlt].
  { destruct population; [done | simpl in Hle; lia]. }
  pose proof (Z.mod_pos_bound (oracle st (pos st)) _ Hlt) as Hr.
  destruct (lookup_lt_is_Some_2 population
              (Z.to_nat (oracle st (pos st) `mod` Z.of_nat (length population))))
    as [x Hx]; [lia|].
  rewrite Hx. eexists _, _. split; [reflexivity|].
  split; [by apply good_set_pos|]. split; [apply ext_set_pos|].
  by eapply list_elem_of_lookup_2.
Qed.

(** *** What the building blocks return *)

Lemma drawn_range a b st z : a <= b -> drawn a b st z -> a <= z <= b.
Proof.
  intros Hab [i ->]. pose proof (Z.mod_pos_bound (oracle st i) (b + 1 - a)). lia.
Qed.

Lemma drawn_const a b st z c :
  oracle st = (fun _ => c) -> drawn a b st z -> z = a + c mod (b + 1 - a).
Proof. intros Ho [i ->]. by rewrite Ho. Qed.

Lemma stable_drawn a b : stable (drawn a b).
Proof. intros st st' z (Ho&_) [i ->]. exists i. by rewrite Ho. Qed.

Lemma stable_int_drawn a b : stable (int_drawn a b).
Proof.
  intros st st' v Hx (z & -> & Hz). exists z. split; [done|].
  by eapply stable_drawn.
Qed.

Lemma stable_neg_int_drawn a b : stable (neg_int_drawn a b).
Proof.
  intros st st' v Hx (z & -> & Hz). exists z. split; [done|].
  by eapply stable_drawn.
Qed.

Lemma stable_pure {A} (Q : A -> Prop) : stable (fun _ a => Q a).
Proof. intros st st' a _ H. exact H. Qed.

Lemma stable_value_in : stable value_in.
Proof. intros st st' v. apply value_in_ext. Qed.

Lemma stable_points_to o : stable (fun st v => points_to st v o).
Proof.
  intros st st' v (_&_&_&Hp) (l & -> & Hl). exists l. split; [done|].
  by eapply prefix_lookup_Some.
Qed.

Lemma stable_list_of E n : stable E -> stable (list_of E n).
Proof.
  intros HE st st' v Hx (xs & Hp & HF & Hlen). exists xs.
  split; [by eapply stable_points_to|]. split; [|done].
  eapply Forall_impl; [exact HF|]. intros x. by apply HE.
Qed.

Lemma stable_and {A} (Q1 Q2 : state -> A -> Prop) :
  stable Q1 -> stable Q2 -> stable (fun st a => Q1 st a /\ Q2 st a).
Proof. intros H1 H2 st st' a Hx [? ?]. split; eauto. Qed.

Lemma builds_randint_drawn P a b : a <= b -> builds P (randint a b) (drawn a b).
Proof.
  intros Hab st Hg _. unfold randint, bind, randbelow, ret.
  destruct (Z.ltb_spec 0 (b + 1 - a)); [|lia].
  destruct (Z.leb_spec (b + 1 - a) 0); [lia|].
  eexists _, _. split; [reflexivity|].
  split; [by apply good_set_pos|]. split; [apply ext_set_pos|].
  by exists (pos st).
Qed.

Lemma entry_randint_v a b : a <= b -> entry_spec (randint_v a b) (int_drawn a b).
Proof.
  intros Hab. unfold entry_spec, randint_v, fmap.
  eapply builds_bind; [by apply builds_randint_drawn|].
  intros z. apply builds_ret. intros st _ Hz. split; [exact I|]. by exists z.
Qed.

Lemma entry_neg_randint a b : a <= b -> entry_spec (neg_randint a b) (neg_int_drawn a b).
Proof.
  intros Hab. unfold entry_spec, neg_randint.
  eapply builds_bind; [by apply entry_randint_v|].
  intros v st Hg (_ & z & -> & Hz). simpl.
  eexists _, _. split; [reflexivity|]. split; [done|]. split; [apply ext_refl|].
  split; [exact I|]. by exists z.
Qed.

Lemma entry_ret v (Q : state -> pyval -> Prop) :
  val_ok 0 v -> (forall st, Q st v) -> entry_spec (ret v) Q.
Proof.
  intros Hv HQ. apply builds_ret. intros st _ _. split; [|apply HQ].
  eapply val_ok_mono; [|exact Hv]. lia.
Qed.

(** Strings *)

Lemma concat_singletons (C : Z -> Prop) (parts : list pystr) :
  Forall (fun p => exists c, p = [c] /\ C c) parts ->
  Forall C (concat parts) /\ length (concat parts) = length parts.
Proof.
  induction 1 as [|p parts (c & -> & Hc) _ [IH1 IH2]]; simpl.
  - split; [constructor | reflexivity].
  - split; [by constructor | congruence].
Qed.

Lemma builds_pure_pre {A} (H : Prop) (m : M A) Q :
  (H -> builds any_state m Q) -> builds (fun _ => H) m Q.
Proof. intros Hm st Hg HP. exact (Hm HP st Hg I). Qed.

Lemma builds_chr (C : Z -> Prop) x :
  builds (fun _ => 0 <= x < 0x110000 /\ C x) (chr x)
    (fun _ p => exists c, p = [c] /\ C c).
Proof.
  apply builds_pure_pre. intros [Hx HC]. unfold chr.
  destruct (Z.leb_spec 0 x); [|lia]. destruct (Z.ltb_spec x 0x110000); [|lia].
  simpl. apply builds_ret. intros. by exists x.
Qed.

Lemma entry_ascii_string k :
  entry_spec (ascii_string k)
    (fun _ => string_of (fun c => 0 <= c < 128) (Z.to_nat k)).
Proof.
  unfold entry_spec, ascii_string.
  eapply builds_bind.
  - apply (builds_list_comp_range _
             (fun _ p => exists c, p = [c] /\ 0 <= c < 128)); [apply stable_pure|].
    eapply builds_bind; [apply (builds_randint any_state 0 127); lia|].
    intros c. eapply builds_weaken; [apply (builds_chr (fun c => 0 <= c < 128)) | | auto].
    simpl. intros _ Hc. lia.
  - intros parts. apply builds_ret. intros st _ [HF Hlen].
    apply concat_singletons in HF as [HF Hl]. split.
    + simpl. eapply Forall_impl; [exact HF|]. intros c Hc. simpl in Hc. left. lia.
    + exists (join parts). unfold join. split; [done|]. split; [done|]. by rewrite Hl.
Qed.

Lemma elem_of_range_from n : forall a x,
  x ∈ range_from n a <-> a <= x < a + Z.of_nat n.
Proof.
  induction n as [|n IH]; intros a x.
  - simpl. split; [by intros ?%not_elem_of_nil | lia].
  - cbn [range_from]. rewrite elem_of_cons, IH. lia.
Qed.

(** [x in range(a, b)] exactly when [a <= x < b]. *)
Lemma elem_of_range a b x : x ∈ range a b <-> a <= x < b.
Proof. unfold range. rewrite elem_of_range_from. lia. Qed.

Lemma VALID_UTF8_CHARS_valid x : x ∈ VALID_UTF8_CHARS -> valid_code_point x.
Proof.
  unfold VALID_UTF8_CHARS, valid_code_point.
  rewrite elem_of_app, !elem_of_range. lia.
Qed.

Lemma VALID_UTF8_CHARS_nonempty : VALID_UTF8_CHARS <> [].
Proof.
  intros H. assert (0 ∈ VALID_UTF8_CHARS) as Hin.
  { unfold VALID_UTF8_CHARS. rewrite elem_of_app, !elem_of_range. lia. }
  rewrite H in Hin. by apply not_elem_of_nil in Hin.
Qed.

Lemma valid_code_point_range c : valid_code_point c -> 0 <= c < 0x110000.
Proof. unfold valid_code_point. lia. Qed.

Lemma entry_utf8_string k :
  entry_spec (utf8_string k) (fun _ => string_of valid_code_point (Z.to_nat k)).
Proof.
  unfold entry_spec, utf8_string.
  eapply builds_bind; [apply builds_choices, VALID_UTF8_CHARS_nonempty|].
  intros xs. eapply builds_bind.
  - apply (builds_pure_pre _ _
             (fun _ parts => Forall (fun p => exists c, p = [c] /\ valid_code_point c) parts
                             /\ length parts = Z.to_nat k)).
    intros [HF Hlen].
    eapply builds_weaken;
      [apply (builds_list_comp_in (fun x => x ∈ VALID_UTF8_CHARS) chr
                (fun p => exists c, p = [c] /\ valid_code_point c)); [|exact HF]
      | intros; exact I |].
    + intros x Hx. eapply builds_weaken; [apply (builds_chr valid_code_point) | | auto].
      simpl. intros _ _. apply VALID_UTF8_CHARS_valid in Hx.
      split; [by apply valid_code_point_range | done].
    + simpl. intros _ parts [HP HL]. split; [exact HP | exact (eq_trans HL Hlen)].
  - intros parts. apply builds_ret. intros st _ [HF Hlen].
    apply concat_singletons in HF as [HF Hl]. split; [exact HF|].
    exists (join parts). unfold join. split; [done|]. split; [done|]. by rewrite Hl.
Qed.

(** Decimals and floats *)

Lemma good_count_conversion st : good st -> good (count_conversion st).
Proof. intros [Hh Hl]. by split. Qed.

Lemma ext_count_conversion st : ext st (count_conversion st).
Proof. repeat split; reflexivity. Qed.

Lemma builds_format_int z :
  builds (fun _ => Z.abs z <= INT_UPPER_LIMIT) (format_int z) (fun _ s => s = repr_int z).
Proof.
  intros st Hg Hz. unfold format_int.
  pose proof (good_limit _ Hg z Hz) as Hfit.
  destruct (Z.ltb_spec (int_max_str_digits st)
              (Z.of_nat (length (digits (Z.abs z))))); [lia|].
  rewrite andb_false_r. eexists _, _. split; [reflexivity|].
  split; [by apply good_count_conversion|]. split; [apply ext_count_conversion | done].
Qed.

Lemma entry_decimal_of_parts prefix a b c d :
  a <= b -> c <= d ->
  - INT_UPPER_LIMIT <= a -> b <= INT_UPPER_LIMIT ->
  - INT_UPPER_LIMIT <= c -> d <= INT_UPPER_LIMIT ->
  entry_spec (decimal_of_parts prefix a b c d) (fun _ => is_decimal).
Proof.
  intros Hab Hcd Ha Hb Hc Hd. unfold entry_spec, decimal_of_parts, Decimal.
  eapply builds_bind; [apply (builds_randint any_state a b Hab)|].
  intros x. eapply builds_bind.
  { eapply builds_weaken; [apply builds_format_int | | intros ? ? H; exact H].
    simpl. intros _ Hx. lia. }
  intros sx. eapply builds_bind.
  { eapply builds_weaken;
      [apply (builds_randint any_state c d Hcd) | intros; exact I | intros ? ? H; exact H]. }
  intros y. eapply builds_bind.
  { eapply builds_weaken; [apply builds_format_int | | intros ? ? H; exact H].
    simpl. intros _ Hy. lia. }
  intros sy. apply builds_ret. intros st _ _. split; [exact I|]. by eexists.
Qed.

(** [float(n)] does not overflow below [2^1023]. *)
Lemma float_of_int_total (n : Z) :
  Z.log2 (Z.abs n) < 1023 ->
  exists m e, forall st, float_of_int n st = Some (PFloat m e, st).
Proof.
  intros HL. unfold float_of_int.
  set (a := Z.abs n) in *. set (k := Z.log2 a + 1 - 53).
  destruct (Z.leb_spec k 0) as [Hk|Hk]; [by eexists _, _|].
  assert (0 < a) as Ha.
  { destruct (Z.lt_ge_cases 0 a) as [|Hle]; [done|].
    pose proof (Z.log2_nonpos a Hle). lia. }
  set (q := Z.shiftr a k).
  set (r := Z.land a (Z.ones k)).
  set (half := Z.shiftl 1 (k - 1)).
  set (q' := if (half <? r) || ((r =? half) && Z.odd q) then q + 1 else q).
  assert (0 <= q < 2 ^ 53) as Hq.
  { unfold q. rewrite Z.shiftr_div_pow2 by lia.
    assert (0 < 2 ^ k) by (apply Z.pow_pos_nonneg; lia).
    split; [apply Z.div_pos; lia|].
    apply Z.div_lt_upper_bound; [done|].
    rewrite <- Z.pow_add_r by lia.
    replace (k + 53) with (Z.succ (Z.log2 a)) by lia.
    by apply Z.log2_spec. }
  assert (q' * 2 ^ k < 2 ^ 1024) as Hfit.
  { assert (q' <= 2 ^ 53) by (unfold q'; destruct (_ || _); lia).
    apply Z.le_lt_trans with (2 ^ 53 * 2 ^ k).
    - apply Z.mul_le_mono_nonneg_r; [apply Z.pow_nonneg; lia | done].
    - rewrite <- Z.pow_add_r by lia. apply Z.pow_lt_mono_r; lia. }
  destruct (Z.leb_spec (2 ^ 1024) (q' * 2 ^ k)); [lia|].
  by eexists _, _.
Qed.

Lemma entry_float_randint a b :
  a <= b -> 0 < a -> b < 2 ^ 1023 -> entry_spec (float_randint a b) (fun _ => is_float).
Proof.
  intros Hab Ha Hb. unfold entry_spec, float_randint.
  eapply builds_bind; [apply (builds_randint any_state a b Hab)|].
  intros n st Hg Hn. simpl in Hn.
  destruct (float_of_int_total n) as (m & e & E).
  { apply Z.log2_lt_pow2; lia. }
  exists (PFloat m e), st. rewrite E.
  split; [done|]. split; [done|]. split; [apply ext_refl|]. split; [exact I|].
  by exists m, e.
Qed.

Lemma entry_neg_float (m : M pyval) :
  entry_spec m (fun _ => is_float) ->
  entry_spec (let* f := m in neg f) (fun _ => is_float).
Proof.
  intros Hm. unfold entry_spec. eapply builds_bind; [exact Hm|].
  intros v st Hg (_ & mm & e & ->). simpl.
  eexists _, _. split; [reflexivity|]. split; [done|]. split; [apply ext_refl|].
  split; [exact I|]. by eexists _, _.
Qed.

(** Lists and dictionaries *)

Lemma builds_alloc_points_to P o :
  (forall st, P st -> obj_ok (length (heap st)) o) ->
  builds P (alloc o) (fun st v => value_in st v /\ points_to st v o).
Proof.
  intros Ho st [Hh Hl] HP. eexists _, _. split; [reflexivity|].
  split; [|split; [|split]].
  - split; [|exact Hl]. simpl. apply heap_ok_snoc; auto.
  - repeat split; simpl. by apply prefix_app_r.
  - unfold value_in. simpl. rewrite length_app. simpl. lia.
  - exists (length (heap st)). split; [done|]. simpl.
    rewrite lookup_app_r by lia. by rewrite Nat.sub_diag.
Qed.

Lemma Forall_assoc_set (P : string * pyval -> Prop) kvs k v :
  Forall P kvs -> P (k, v) -> (forall k' v', P (k', v') -> k' = k -> P (k', v)) ->
  Forall P (assoc_set kvs k v).
Proof.
  intros HF Hkv Hrepl. induction HF as [|[k' v'] kvs Hh Ht IH]; simpl.
  - by repeat constructor.
  - destruct (decide (k' = k)); constructor; eauto.
Qed.

Lemma obj_ok_display n kvs acc :
  Forall (fun kv => val_ok n kv.2) kvs -> Forall (fun kv => val_ok n kv.2) acc ->
  Forall (fun kv => val_ok n kv.2)
    (fold_left (fun acc kv => assoc_set acc kv.1 kv.2) kvs acc).
Proof.
  intros Hk. revert acc. induction Hk as [|[k v] kvs Hh Ht IH]; intros acc Hacc; simpl.
  - exact Hacc.
  - apply IH. apply Forall_assoc_set; auto.
Qed.

Lemma entry_new_dict P kvs :
  (forall st, P st -> Forall (fun kv => value_in st kv.2) kvs) ->
  builds P (new_dict kvs)
    (fun st v => value_in st v /\
       points_to st v (ODict (fold_left (fun acc kv => assoc_set acc kv.1 kv.2) kvs []))).
Proof.
  intros Hk. unfold new_dict. apply builds_alloc_points_to.
  intros st HP. simpl. apply obj_ok_display; [by apply Hk | constructor].
Qed.

Lemma entry_new_list P xs :
  (forall st, P st -> Forall (value_in st) xs) ->
  builds P (new_list xs) (fun st v => value_in st v /\ points_to st v (OList xs)).
Proof.
  intros Hk. unfold new_list. apply builds_alloc_points_to.
  intros st HP. simpl. by apply Hk.
Qed.

Lemma concat_replicate_singleton {A} (n : nat) (x : A) :
  concat (replicate n [x]) = replicate n x.
Proof. induction n as [|n IH]; simpl; [done | by rewrite IH]. Qed.

Lemma entry_repeat_list P x n :
  (forall st, P st -> value_in st x) ->
  builds P (repeat_list x n)
    (fun st v => value_in st v /\ list_of (fun _ y => y = x) (Z.to_nat n) st v).
Proof.
  intros Hx. unfold repeat_list. rewrite concat_replicate_singleton.
  eapply builds_weaken; [apply (entry_new_list P) | intros st H; exact H |].
  - intros st HP. apply Forall_replicate. by apply Hx.
  - simpl. intros st v [Hv Hp]. split; [done|].
    exists (replicate (Z.to_nat n) x). split; [done|].
    split; [by apply Forall_replicate | by rewrite length_replicate].
Qed.

(** Facts that survive allocation carry over a building step. *)
Lemma builds_frame {A} (P R : state -> Prop) (m : M A) Q :
  (forall st st', ext st st' -> R st -> R st') ->
  builds P m Q ->
  builds (fun st => P st /\ R st) m (fun st a => Q st a /\ R st).
Proof.
  intros HR Hm st Hg [HP HRst].
  destruct (Hm st Hg HP) as (a & st' & E & Hg' & Hx & HQ).
  exists a, st'. eauto 10.
Qed.

Lemma entry_array_of n body E :
  stable E -> entry_spec body E ->
  entry_spec (array_of n body) (list_of E (Z.to_nat n)).
Proof.
  intros HE Hbody. unfold entry_spec, array_of.
  eapply builds_bind.
  - apply (builds_list_comp_range body (fun st v => value_in st v /\ E st v));
      [|exact Hbody].
    by apply stable_and; [apply stable_value_in|].
  - intros xs.
    pose (R := fun st => Forall (E st) xs /\ length xs = Z.to_nat n).
    eapply builds_weaken;
      [apply (builds_frame (fun st => Forall (value_in st) xs) R);
         [|apply entry_new_list; intros st H; exact H] | |].
    + intros st st' Hx [HF Hlen]. split; [|done].
      eapply Forall_impl; [exact HF|]. intros v. by apply HE.
    + simpl. intros st [HF Hlen]. split; [|split; [|done]].
      * eapply Forall_impl; [exact HF|]. by intros v [? ?].
      * eapply Forall_impl; [exact HF|]. by intros v [? ?].
    + simpl. intros st v [[Hv Hp] [HF Hlen]]. split; [done|]. by exists xs.
Qed.

(** *** The entries of [test_object] *)

Lemma entry_spec_ok m Q : entry_spec m Q -> entry_ok m.
Proof.
  intros H. eapply builds_weaken; [exact H | intros st HP; exact HP |].
  simpl. by intros st v [? ?].
Qed.

Lemma entry_builds_ok m (Q : state -> pyval -> Prop) :
  builds any_state m (fun st v => value_in st v /\ Q st v) -> entry_ok m.
Proof. apply entry_spec_ok. Qed.

Lemma entry_literal v : val_ok 0 v -> entry_spec (ret v) (fun _ w => w = v).
Proof. intros Hv. by apply entry_ret. Qed.

Lemma entry_object_3 :
  entry_ok (let* inner := new_dict [] in new_dict [("meow"%string, inner)]).
Proof.
  eapply entry_builds_ok with (Q := fun _ _ => True).
  eapply builds_bind; [apply (entry_new_dict any_state []); by constructor|].
  intros inner. eapply builds_weaken;
    [apply (entry_new_dict (fun st => value_in st inner)) | | ].
  - intros st Hv. by repeat constructor.
  - simpl. by intros st [? ?].
  - simpl. by intros st v [? ?].
Qed.

Lemma entry_multi_type_array_2 :
  entry_spec (let* inner := new_list [] in repeat_list inner 100)
    (fun st v => exists e, list_of (fun _ y => y = e) (Z.to_nat 100) st v /\
                           points_to st e (OList [])).
Proof.
  eapply builds_bind; [apply (entry_new_list any_state []); by constructor|].
  intros inner.
  eapply builds_weaken;
    [apply (builds_frame (fun st => value_in st inner)
              (fun st => points_to st inner (OList [])));
       [|apply entry_repeat_list; intros st H; exact H] | | ].
  - intros st st' Hx. by apply stable_points_to.
  - simpl. by intros st [? ?].
  - simpl. intros st v [[Hv Hl] Hp]. split; [done|]. by exists inner.
Qed.

Lemma entry_bool_array_5 :
  entry_spec (let* xs := choices [PBool true; PBool false] 10000 in new_list xs)
    (list_of (fun _ y => exists b, y = PBool b) (Z.to_nat 10000)).
Proof.
  eapply builds_bind; [by apply builds_choices|].
  intros xs.
  pose (R := fun (_ : state) =>
               Forall (fun x : pyval => x ∈ [PBool true; PBool false]) xs /\
               length xs = Z.to_nat 10000).
  eapply builds_weaken;
    [apply (builds_frame (fun st => Forall (value_in st) xs) R);
       [|apply entry_new_list; intros st H; exact H] | | ].
  - by intros st st' _ H.
  - simpl. intros st [HF Hlen]. split; [|done].
    eapply Forall_impl; [exact HF|]. intros v Hv.
    apply elem_of_cons in Hv as [-> | Hv]; [exact I|].
    apply elem_of_cons in Hv as [-> | Hv]; [exact I|].
    by apply not_elem_of_nil in Hv.
  - simpl. intros st v [[Hv Hp] [HF Hlen]]. split; [done|]. exists xs.
    split; [done|]. split; [|done].
    eapply Forall_impl; [exact HF|]. intros y Hy.
    apply elem_of_cons in Hy as [-> | Hy]; [by eexists|].
    apply elem_of_cons in Hy as [-> | Hy]; [by eexists|].
    by apply not_elem_of_nil in Hy.
Qed.

(** Side conditions on the bounds handed to [randint]. *)
Ltac bounds :=
  pose proof limit_pos; pose proof pow2_2040_lt_limit; pose proof pow2_2040_pos; lia.

(** One entry of the table, chosen by the shape of its expression. *)
Ltac entry :=
  lazymatch goal with
  | |- entry_ok (ret _) =>
      eapply entry_spec_ok; apply entry_literal; simpl; by repeat constructor
  | |- entry_ok (ascii_string _) => eapply entry_spec_ok; apply entry_ascii_string
  | |- entry_ok (utf8_string _) => eapply entry_spec_ok; apply entry_utf8_string
  | |- entry_ok (randint_v _ _) => eapply entry_spec_ok; apply entry_randint_v; bounds
  | |- entry_ok (neg_randint _ _) => eapply entry_spec_ok; apply entry_neg_randint; bounds
  | |- entry_ok (decimal_of_parts _ _ _ _ _) =>
      eapply entry_spec_ok; apply entry_decimal_of_parts; bounds
  | |- entry_ok (float_randint _ _) =>
      eapply entry_spec_ok; apply entry_float_randint; bounds
  | |- entry_ok (bind (float_randint _ _) _) =>
      eapply entry_spec_ok; apply entry_neg_float, entry_float_randint; bounds
  | |- entry_ok (new_dict _) =>
      eapply entry_spec_ok; apply (entry_new_dict any_state); intros; simpl;
      repeat constructor; unfold valid_code_point; simpl; lia
  | |- entry_ok (bind (new_dict _) _) => exact entry_object_3
  | |- entry_ok (new_list _) =>
      eapply entry_spec_ok; apply (entry_new_list any_state); intros; by repeat constructor
  | |- entry_ok (bind (new_list _) _) =>
      eapply entry_spec_ok; exact entry_multi_type_array_2
  | |- entry_ok (repeat_list _ _) =>
      eapply entry_spec_ok; apply (entry_repeat_list any_state); intros; exact I
  | |- entry_ok (bind (choices _ _) _) => eapply entry_spec_ok; exact entry_bool_array_5
  | |- entry_ok (array_of _ (utf8_string _)) =>
      eapply entry_spec_ok; apply entry_array_of;
      [apply stable_pure | apply entry_utf8_string]
  | |- entry_ok (array_of _ (randint_v _ _)) =>
      eapply entry_spec_ok; apply entry_array_of;
      [apply stable_int_drawn | apply entry_randint_v; bounds]
  | |- entry_ok (array_of _ (neg_randint _ _)) =>
      eapply entry_spec_ok; apply entry_array_of;
      [apply stable_neg_int_drawn | apply entry_neg_randint; bounds]
  | |- entry_ok (array_of _ (decimal_of_parts _ _ _ _ _)) =>
      eapply entry_spec_ok; apply entry_array_of;
      [apply stable_pure | apply entry_decimal_of_parts; bounds]
  end.

Ltac next_entry :=
  lazymatch goal with
  | |- Forall _ ((_, ?m) :: _) =>
      apply Forall_cons_2; [change (entry_ok m); entry |]
  end.

Lemma test_object_items_ok : Forall (fun km => entry_ok km.2) test_object_items.
Proof. unfold test_object_items. repeat next_entry. constructor. Qed.

(** ** Running the dictionary display *)

Lemma bind_run {A B} (m : M A) (k : A -> M B) st a st' :
  m st = Some (a, st') -> bind m k st = k a st'.
Proof. intros E. unfold bind. by rewrite E. Qed.

(** The values of a display are evaluated in order; entry [i] of the
    result is what item [i] evaluates to. *)
Lemma items_spec (items : list (string * M pyval)) :
  Forall (fun km => entry_ok km.2) items ->
  forall st, good st ->
  exists (kvs : list (string * pyval)) st',
    list_comp_in items (fun kv => let* v := kv.2 in ret (kv.1, v)) st = Some (kvs, st') /\
    good st' /\ ext st st' /\ map fst kvs = map fst items /\
    Forall (fun kv => value_in st' kv.2) kvs /\
    (forall (i : nat) k m Q, items !! i = Some (k, m) -> stable Q -> entry_spec m Q ->
       exists v, kvs !! i = Some (k, v) /\ Q st' v).
Proof.
  induction 1 as [|km items H0 Hrest IH]; intros st Hg; [|destruct km as [k0 m0]].
  - exists [], st. split; [done|]. split; [done|]. split; [apply ext_refl|].
    split; [done|]. split; [constructor|]. intros i k m Q Hi. by destruct i.
  - cbn [snd] in H0. destruct (H0 st Hg I) as (v0 & st1 & E1 & Hg1 & Hx1 & Hv0).
    destruct (IH st1 Hg1) as (kvs & st2 & E2 & Hg2 & Hx2 & Hk & HF & Hidx).
    exists ((k0, v0) :: kvs), st2. split; [|split; [done|split; [|split; [|split]]]].
    + cbn [list_comp_in fst snd].
      rewrite (bind_run _ _ st (k0, v0) st1); [|by rewrite (bind_run _ _ st v0 st1)].
      by rewrite (bind_run _ _ st1 kvs st2).
    + by eapply ext_trans.
    + simpl. by rewrite Hk.
    + constructor; [|done]. cbn [snd]. by eapply value_in_ext.
    + intros i k m Q Hi HQ Hm. destruct i as [|i].
      * injection Hi as -> ->.
        destruct (Hm st Hg I) as (v & st1' & E1' & _ & _ & _ & HQv).
        rewrite E1 in E1'. injection E1' as <- <-.
        exists v0. split; [done|]. by eapply HQ.
      * by apply Hidx with m.
Qed.

Lemma assoc_set_fresh kvs k v : k ∉ map fst kvs -> assoc_set kvs k v = kvs ++ [(k, v)].
Proof.
  induction kvs as [|[k' v'] kvs IH]; intros Hk; simpl; [done|].
  simpl in Hk. apply not_elem_of_cons in Hk as [Hne Hk].
  destruct (decide (k' = k)); [congruence|]. by rewrite IH.
Qed.

(** With distinct keys a display stores its entries as written. *)
Lemma display_nodup kvs : forall acc,
  NoDup (map fst (acc ++ kvs)) ->
  fold_left (fun acc kv => assoc_set acc kv.1 kv.2) kvs acc = acc ++ kvs.
Proof.
  induction kvs as [|[k v] kvs IH]; intros acc Hnd; simpl.
  - by rewrite app_nil_r.
  - rewrite assoc_set_fresh.
    + rewrite IH; rewrite <- app_assoc; [done|]. exact Hnd.
    + rewrite map_app in Hnd. apply NoDup_app in Hnd as (_ & Hdisj & _).
      intros Hin. apply (Hdisj k Hin). simpl. apply elem_of_cons. by left.
Qed.

Lemma assoc_lookup_nodup kvs i k v :
  NoDup (map fst kvs) -> kvs !! i = Some (k, v) -> assoc kvs k = Some v.
Proof.
  revert i. induction kvs as [|[k' v'] kvs IH]; intros i Hnd Hi; [by destruct i|].
  simpl in Hnd. apply NoDup_cons in Hnd as [Hnotin Hnd]. simpl.
  destruct i as [|i].
  - injection Hi as -> ->. by rewrite decide_True.
  - simpl in Hi. destruct (decide (k' = k)) as [->|]; [|by eapply IH].
    exfalso. apply Hnotin. apply list_elem_of_fmap. exists (k, v).
    split; [done|]. by eapply list_elem_of_lookup_2.
Qed.

Lemma labels_eq : map fst test_object_items = labels.
Proof. reflexivity. Qed.

Lemma labels_nodup : NoDup labels.
Proof. apply (bool_decide_unpack _). by vm_compute. Qed.

Lemma labels_fresh_multi_type_array_3 : "multi-type array 3"%string ∉ labels.
Proof. apply (bool_decide_unpack _). by vm_compute. Qed.

Lemma labels_fresh_object_4 :
  "object 4"%string ∉ labels ++ ["multi-type array 3"%string].
Proof. apply (bool_decide_unpack _). by vm_compute. Qed.

(** ** Running the statements on the store *)

Lemma deref_run st l o : heap st !! l = Some o -> deref (PRef l) st = Some (o, st).
Proof. intros E. unfold deref. by rewrite E. Qed.

Lemma store_run st l o :
  (l < length (heap st))%nat ->
  store (PRef l) o st = Some (tt, set_heap (<[l := o]> (heap st)) st).
Proof. intros Hl. unfold store. by rewrite decide_True. Qed.

Lemma getitem_run st l kvs k v :
  heap st !! l = Some (ODict kvs) -> assoc kvs k = Some v ->
  getitem (PRef l) k st = Some (v, st).
Proof.
  intros Hl Hk. unfold getitem. rewrite (bind_run _ _ _ _ _ (deref_run _ _ _ Hl)).
  unfold lift. by rewrite Hk.
Qed.

Lemma setitem_run st l kvs k v :
  heap st !! l = Some (ODict kvs) ->
  setitem (PRef l) k v st =
    Some (tt, set_heap (<[l := ODict (assoc_set kvs k v)]> (heap st)) st).
Proof.
  intros Hl. unfold setitem. rewrite (bind_run _ _ _ _ _ (deref_run _ _ _ Hl)).
  apply store_run. by eapply lookup_lt_Some.
Qed.

Lemma keys_run st l kvs :
  heap st !! l = Some (ODict kvs) -> keys (PRef l) st = Some (map fst kvs, st).
Proof.
  intros Hl. unfold keys. by rewrite (bind_run _ _ _ _ _ (deref_run _ _ _ Hl)).
Qed.

Lemma copy_run st l o :
  heap st !! l = Some o ->
  copy (PRef l) st = Some (PRef (length (heap st)), set_heap (heap st ++ [o]) st).
Proof.
  intros Hl. unfold copy. by rewrite (bind_run _ _ _ _ _ (deref_run _ _ _ Hl)).
Qed.

Lemma list_append_run st l xs x :
  heap st !! l = Some (OList xs) ->
  list_append (PRef l) x st =
    Some (tt, set_heap (<[l := OList (xs ++ [x])]> (heap st)) st).
Proof.
  intros Hl. unfold list_append. rewrite (bind_run _ _ _ _ _ (deref_run _ _ _ Hl)).
  apply store_run. by eapply lookup_lt_Some.
Qed.

Lemma getitem_each st l kvs (sub : list (string * pyval)) :
  heap st !! l = Some (ODict kvs) ->
  Forall (fun kv => assoc kvs kv.1 = Some kv.2) sub ->
  list_comp_in (map fst sub) (getitem (PRef l)) st = Some (map snd sub, st).
Proof.
  intros Hl. induction 1 as [|[k v] sub Hk _ IH]; [done|].
  cbn [map fst snd list_comp_in].
  rewrite (bind_run _ _ _ _ _ (getitem_run _ _ _ _ _ Hl Hk)).
  by rewrite (bind_run _ _ _ _ _ IH).
Qed.

Lemma assoc_all kvs :
  NoDup (map fst kvs) -> Forall (fun kv => assoc kvs kv.1 = Some kv.2) kvs.
Proof.
  intros Hnd. apply Forall_lookup. intros i [k v] Hi. by eapply assoc_lookup_nodup.
Qed.

(** Lines 92-94 on a store whose last object is the dictionary. *)
Lemma multi_type_array_3_run st h0 kvs :
  heap st = h0 ++ [ODict kvs] ->
  NoDup (map fst kvs) ->
  "multi-type array 3"%string ∉ map fst kvs ->
  multi_type_array_3 (PRef (length h0)) st =
    Some (tt, set_heap
                (h0 ++ [ODict (kvs ++ [("multi-type array 3"%string, PRef (length h0 + 1)%nat)]);
                        OList (map snd kvs ++ [PRef (length h0 + 2)%nat]);
                        OList (map snd kvs)]) st).
Proof.
  intros Hh Hnd Hfresh.
  assert (heap st !! length h0 = Some (ODict kvs)) as HT.
  { rewrite Hh, lookup_app_r by lia. by rewrite Nat.sub_diag. }
  unfold multi_type_array_3.
  rewrite (bind_run _ _ _ _ _ (keys_run _ _ _ HT)).
  rewrite (bind_run _ _ _ _ _ (getitem_each _ _ _ kvs HT (assoc_all _ Hnd))).
  unfold new_list at 1. unfold alloc at 1. unfold bind at 1.
  set (st1 := set_heap (heap st ++ [OList (map snd kvs)]) st).
  assert (length (heap st) = (length h0 + 1)%nat) as Hlen.
  { by rewrite Hh, length_app. }
  assert (heap st1 !! (length h0 + 1)%nat = Some (OList (map snd kvs))) as HL.
  { unfold st1. simpl. rewrite lookup_app_r by lia. by rewrite Hlen, Nat.sub_diag. }
  rewrite Hlen.
  rewrite (bind_run _ _ _ _ _ (copy_run _ _ _ HL)).
  set (st2 := set_heap (heap st1 ++ [OList (map snd kvs)]) st1).
  assert (length (heap st1) = (length h0 + 2)%nat) as Hlen1.
  { unfold st1. simpl. rewrite length_app, Hlen. simpl. lia. }
  rewrite Hlen1.
  assert (heap st2 = h0 ++ [ODict kvs; OList (map snd kvs); OList (map snd kvs)]) as Hh2.
  { unfold st2, st1. simpl. rewrite Hh, <- !app_assoc. done. }
  assert (heap st2 !! (length h0 + 1)%nat = Some (OList (map snd kvs))) as HL2.
  { rewrite Hh2, lookup_app_r by lia.
    by replace (length h0 + 1 - length h0)%nat with 1%nat by lia. }
  rewrite (bind_run _ _ _ _ _ (list_append_run _ _ _ _ HL2)).
  set (st3 := set_heap _ st2).
  assert (heap st3 = h0 ++ [ODict kvs; OList (map snd kvs ++ [PRef (length h0 + 2)%nat]);
                            OList (map snd kvs)]) as Hh3.
  { unfold st3. cbn [heap set_heap]. rewrite Hh2. by rewrite (insert_app_r h0 _ 1). }
  assert (heap st3 !! length h0 = Some (ODict kvs)) as HT3.
  { rewrite Hh3, lookup_app_r by lia. by rewrite Nat.sub_diag. }
  rewrite (setitem_run _ _ _ _ _ HT3). f_equal. f_equal.
  rewrite Hh3, assoc_set_fresh by done.
  replace (length h0) with (length h0 + 0)%nat at 1 by lia.
  rewrite (insert_app_r h0 _ 0). done.
Qed.

(** ** The corpus before emission

    The store after line 94 consists of the objects built by the display
    ([h0]), followed by the dictionary itself, the list
    [multi_type_array_3] and the copy that is its last element. *)
Lemma corpus_spec st :
  good st ->
  exists (h0 : list pyobj) (kvs : list (string * pyval)) st',
    corpus st = Some (PRef (length h0), st') /\
    heap st' =
      h0 ++ [ODict (kvs ++ [("multi-type array 3"%string, PRef (length h0 + 1)%nat)]);
             OList (map snd kvs ++ [PRef (length h0 + 2)%nat]);
             OList (map snd kvs)] /\
    oracle st' = oracle st /\ stdout st' = stdout st /\
    int_max_str_digits st' = int_max_str_digits st /\
    heap_ok h0 /\ map fst kvs = labels /\
    Forall (fun kv => val_ok (length h0) kv.2) kvs /\
    (forall (i : nat) k m Q,
       test_object_items !! i = Some (k, m) -> stable Q -> entry_spec m Q ->
       exists v, kvs !! i = Some (k, v) /\ Q st' v).
Proof.
  intros Hg.
  destruct (items_spec _ test_object_items_ok st Hg)
    as (kvs & st0 & E & Hg0 & Hx0 & Hk & HF & Hidx).
  rewrite labels_eq in Hk.
  assert (NoDup (map fst kvs)) as Hnd by (rewrite Hk; apply labels_nodup).
  set (st1 := set_heap (heap st0 ++ [ODict kvs]) st0).
  assert (test_object st = Some (PRef (length (heap st0)), st1)) as E1.
  { unfold test_object, dict_display. rewrite (bind_run _ _ _ _ _ E).
    unfold new_dict, alloc. by rewrite (display_nodup kvs []). }
  pose proof (multi_type_array_3_run st1 (heap st0) kvs eq_refl Hnd) as E2.
  rewrite Hk in E2. specialize (E2 labels_fresh_multi_type_array_3).
  eexists (heap st0), kvs, _. split; [|split; [|split; [|split; [|split]]]].
  - unfold corpus. rewrite (bind_run _ _ _ _ _ E1), (bind_run _ _ _ _ _ E2). reflexivity.
  - reflexivity.
  - apply Hx0.
  - apply Hx0.
  - apply Hx0.
  - split; [apply Hg0|]. split; [done|]. split; [exact HF|].
    intros i k m Q Hi HQ Hm. destruct (Hidx i k m Q Hi HQ Hm) as (v & Hv & HQv).
    exists v. split; [done|]. eapply HQ; [|exact HQv].
    destruct Hx0 as (Ho & Hs & Hl & Hp).
    repeat split; simpl; try done. by apply prefix_app_r.
Qed.

(** ** The run up to line 94 *)

Lemma oracle_set_limit n st : oracle (set_limit n st) = oracle st.
Proof. reflexivity. Qed.

Lemma stdout_set_limit n st : stdout (set_limit n st) = stdout st.
Proof. reflexivity. Qed.

Lemma heap_set_limit n st : heap (set_limit n st) = heap st.
Proof. reflexivity. Qed.

Lemma int_max_str_digits_set_limit n st : int_max_str_digits (set_limit n st) = n.
Proof. reflexivity. Qed.

Lemma set_int_max_str_digits_run n st :
  640 <= n -> set_int_max_str_digits n st = Some (tt, set_limit n st).
Proof.
  intros Hn. unfold set_int_max_str_digits.
  destruct (Z.leb_spec 640 n); [|lia]. by rewrite orb_true_r.
Qed.

Lemma preamble_run st :
  preamble st = Some (tt, set_limit (2 * ceil_log10 INT_UPPER_LIMIT + 1) st).
Proof. apply set_int_max_str_digits_run, limit_digits_large. Qed.

(** After line 27 the interpreter is ready to build the corpus. *)
Lemma good_after_preamble g :
  good (set_limit (2 * ceil_log10 INT_UPPER_LIMIT + 1) (init g)).
Proof.
  split.
  - rewrite heap_set_limit. intros l o Hl. by destruct l.
  - intros z Hz. rewrite int_max_str_digits_set_limit. by apply digits_within_limit.
Qed.

(** The shape of the store after [build], from any random source. *)
Lemma build_spec g :
  exists (h0 : list pyobj) (kvs : list (string * pyval)) st,
    build (init g) = Some (PRef (length h0), st) /\
    heap st =
      h0 ++ [ODict (kvs ++ [("multi-type array 3"%string, PRef (length h0 + 1)%nat)]);
             OList (map snd kvs ++ [PRef (length h0 + 2)%nat]);
             OList (map snd kvs)] /\
    oracle st = g /\ stdout st = ""%string /\
    int_max_str_digits st = 2 * ceil_log10 INT_UPPER_LIMIT + 1 /\
    heap_ok h0 /\ map fst kvs = labels /\
    Forall (fun kv => val_ok (length h0) kv.2) kvs /\
    (forall (i : nat) k m Q,
       test_object_items !! i = Some (k, m) -> stable Q -> entry_spec m Q ->
       exists v, kvs !! i = Some (k, v) /\ Q st v).
Proof.
  destruct (corpus_spec _ (good_after_preamble g))
    as (h0 & kvs & st & E & Hh & Ho & Hs & Hl & Hok & Hk & HF & Hidx).
  rewrite oracle_set_limit in Ho. rewrite stdout_set_limit in Hs.
  rewrite int_max_str_digits_set_limit in Hl.
  exists h0, kvs, st.
  split; [unfold build; rewrite (bind_run _ _ _ _ _ (preamble_run _)); exact E|].
  split; [exact Hh|]. split; [exact Ho|]. split; [exact Hs|]. split; [exact Hl|].
  split; [exact Hok|]. split; [exact Hk|]. split; [exact HF | exact Hidx].
Qed.

Lemma labels_with_array_3_nodup : NoDup (labels ++ ["multi-type array 3"%string]).
Proof. apply (bool_decide_unpack _). by vm_compute. Qed.

Lemma lookup_entry_corpus st h0 (kvs : list (string * pyval)) x rest (i : nat) k v :
  heap st = h0 ++ ODict (kvs ++ [("multi-type array 3"%string, x)]) :: rest ->
  map fst kvs = labels -> kvs !! i = Some (k, v) ->
  lookup_entry st (PRef (length h0)) k = Some v.
Proof.
  intros Hh Hk Hi.
  unfold lookup_entry. rewrite Hh, lookup_app_r by lia. rewrite Nat.sub_diag. simpl.
  apply assoc_lookup_nodup with i.
  - rewrite map_app, Hk. apply labels_with_array_3_nodup.
  - by apply lookup_app_l_Some.
Qed.

(** Every run reaches line 94, and each entry of the display can be read
    back from the dictionary under its label. *)
Lemma build_entries (g : nat -> Z) :
  exists d st,
    build (init g) = Some (d, st) /\ oracle st = g /\
    (forall k m Q, (k, m) ∈ test_object_items -> stable Q -> entry_spec m Q ->
       exists v, lookup_entry st d k = Some v /\ Q st v).
Proof.
  destruct (build_spec g) as (h0 & kvs & st & E & Hh & Ho & _ & _ & _ & Hk & _ & Hidx).
  exists (PRef (length h0)), st. split; [exact E|]. split; [exact Ho|].
  intros k m Q Hin HQ Hm.
  apply list_elem_of_lookup_1 in Hin as [i Hi].
  destruct (Hidx i k m Q Hi HQ Hm) as (v & Hv & HQv).
  exists v. split; [|exact HQv]. by eapply lookup_entry_corpus.
Qed.

(** Finding an entry of the table by its label. *)
Ltac pick_entry :=
  unfold test_object_items;
  repeat lazymatch goal with
         | |- (?k, _) ∈ (?k, _) :: _ => apply list_elem_of_here
         | |- _ ∈ _ :: _ => apply list_elem_of_further
         end.

Lemma elements_list_of E n st v :
  list_of E n st v ->
  exists xs, elements st v = Some xs /\ Forall (E st) xs /\ length xs = n.
Proof.
  intros (xs & (l & -> & Hl) & HF & Hlen). exists xs. simpl. by rewrite Hl.
Qed.

(** *** Integer entries of one run *)

Section Run.

Variables (st : state) (d : pyval).
Hypothesis entries :
  forall k m Q, (k, m) ∈ test_object_items -> stable Q -> entry_spec m Q ->
    exists v, lookup_entry st d k = Some v /\ Q st v.

Lemma scalar_in k a b (P : Z -> Prop) :
  (k, randint_v a b) ∈ test_object_items -> a <= b ->
  (forall z, a <= z <= b -> P z) -> int_entry st d k P.
Proof.
  intros Hin Hab HP.
  destruct (entries k _ _ Hin (stable_int_drawn a b) (entry_randint_v a b Hab))
    as (v & Hv & z & -> & Hz).
  exists z. split; [exact Hv|]. apply HP. by eapply drawn_range.
Qed.

Lemma neg_scalar_in k a b (P : Z -> Prop) :
  (k, neg_randint a b) ∈ test_object_items -> a <= b ->
  (forall z, a <= z <= b -> P (- z)) -> int_entry st d k P.
Proof.
  intros Hin Hab HP.
  destruct (entries k _ _ Hin (stable_neg_int_drawn a b) (entry_neg_randint a b Hab))
    as (v & Hv & z & -> & Hz).
  exists (- z). split; [exact Hv|]. apply HP. by eapply drawn_range.
Qed.

Lemma array_in k n a b (P : Z -> Prop) :
  (k, array_of n (randint_v a b)) ∈ test_object_items -> 0 <= n -> a <= b ->
  (forall z, a <= z <= b -> P z) -> int_array_entry st d k n P.
Proof.
  intros Hin Hn Hab HP.
  destruct (entries k _ _ Hin (stable_list_of _ (Z.to_nat n) (stable_int_drawn a b))
              (entry_array_of n _ _ (stable_int_drawn a b) (entry_randint_v a b Hab)))
    as (v & Hv & Hl).
  apply elements_list_of in Hl as (xs & Hxs & HF & Hlen).
  exists v, xs. split; [exact Hv|]. split; [exact Hxs|]. split; [lia|].
  eapply Forall_impl; [exact HF|]. intros x (z & -> & Hz).
  exists z. split; [done|]. apply HP. by eapply drawn_range.
Qed.

Lemma neg_array_in k n a b (P : Z -> Prop) :
  (k, array_of n (neg_randint a b)) ∈ test_object_items -> 0 <= n -> a <= b ->
  (forall z, a <= z <= b -> P (- z)) -> int_array_entry st d k n P.
Proof.
  intros Hin Hn Hab HP.
  destruct (entries k _ _ Hin (stable_list_of _ (Z.to_nat n) (stable_neg_int_drawn a b))
              (entry_array_of n _ _ (stable_neg_int_drawn a b) (entry_neg_randint a b Hab)))
    as (v & Hv & Hl).
  apply elements_list_of in Hl as (xs & Hxs & HF & Hlen).
  exists v, xs. split; [exact Hv|]. split; [exact Hxs|]. split; [lia|].
  eapply Forall_impl; [exact HF|]. intros x (z & -> & Hz).
  exists (- z). split; [done|]. apply HP. by eapply drawn_range.
Qed.


Lemma neg_scalar_const c k a b :
  oracle st = (fun _ => c) -> (k, neg_randint a b) ∈ test_object_items -> a <= b ->
  lookup_entry st d k = Some (PInt (- (a + c mod (b + 1 - a)))).
Proof.
  intros Ho Hin Hab.
  destruct (entries k _ _ Hin (stable_neg_int_drawn a b) (entry_neg_randint a b Hab))
    as (v & Hv & z & -> & Hz).
  by rewrite (drawn_const _ _ _ _ _ Ho Hz) in Hv.
Qed.

Lemma neg_array_const c k n a b :
  oracle st = (fun _ => c) ->
  (k, array_of n (neg_randint a b)) ∈ test_object_items -> 0 <= n -> a <= b ->
  int_array_entry st d k n (fun z => z = - (a + c mod (b + 1 - a))).
Proof.
  intros Ho Hin Hn Hab.
  destruct (entries k _ _ Hin (stable_list_of _ (Z.to_nat n) (stable_neg_int_drawn a b))
              (entry_array_of n _ _ (stable_neg_int_drawn a b) (entry_neg_randint a b Hab)))
    as (v & Hv & Hl).
  apply elements_list_of in Hl as (xs & Hxs & HF & Hlen).
  exists v, xs. split; [exact Hv|]. split; [exact Hxs|]. split; [lia|].
  eapply Forall_impl; [exact HF|]. intros x (z & -> & Hz).
  exists (- z). split; [done|]. by rewrite (drawn_const _ _ _ _ _ Ho Hz).
Qed.

End Run.

(** The expression the table has under a label. *)
Ltac expression_of k :=
  lazymatch eval unfold test_object_items in test_object_items with
  | context [ (k, ?m) :: _ ] => m
  end.

(** An integer entry or array lies in a range: by the bounds of the
    [randint] call the table has under that label. *)
Ltac int_band Hent :=
  lazymatch goal with
  | |- int_entry ?st ?d ?k _ =>
      let m := expression_of k in
      lazymatch m with
      | randint_v ?a ?b =>
          apply (scalar_in st d Hent k a b); [pick_entry | bounds | intros; bounds]
      | neg_randint ?a ?b =>
          apply (neg_scalar_in st d Hent k a b); [pick_entry | bounds | intros; bounds]
      end
  | |- int_array_entry ?st ?d ?k _ _ =>
      let m := expression_of k in
      lazymatch m with
      | array_of ?n (randint_v ?a ?b) =>
          apply (array_in st d Hent k n a b);
          [pick_entry | lia | bounds | intros; bounds]
      | array_of ?n (neg_randint ?a ?b) =>
          apply (neg_array_in st d Hent k n a b);
          [pick_entry | lia | bounds | intros; bounds]
      end
  end.

(** ** The claims *)

(** C9. For every run, regardless of the random draws, the entry labelled
    "unsigned 8-bit defined integer 2" is the integer [0]: an [int], not
    a boolean, not [None] and not a decimal. *)
Theorem unsigned_8_bit_defined_integer_2_is_zero (g : nat -> Z) :
  exists d st,
    build (init g) = Some (d, st) /\
    lookup_entry st d "unsigned 8-bit defined integer 2" = Some (PInt 0).
Proof.
  destruct (build_entries g) as (d & st & E & _ & Hent).
  exists d, st. split; [exact E|].
  edestruct (Hent "unsigned 8-bit defined integer 2"%string) as (v & Hv & HQ);
    [pick_entry | | apply entry_literal; exact I | ]; [apply stable_pure|].
  simpl in HQ. by rewrite <- HQ.
Qed.

(** C10. The 8-bit categories labelled negative are not strictly
    negative: in every run the entry "negative 8-bit defined integer" and
    all 10,000 elements of "negative 8-bit defined integer array" are at
    most [0], and there is a run in which they are [0], because the
    magnitude is drawn from [[0, 255]] before it is negated. *)
Theorem negative_8_bit_may_be_zero :
  (forall g : nat -> Z,
     exists d st,
       build (init g) = Some (d, st) /\
       int_entry st d "negative 8-bit defined integer" (fun z => -255 <= z <= 0) /\
       int_array_entry st d "negative 8-bit defined integer array" 10000
         (fun z => -255 <= z <= 0)) /\
  (exists (g : nat -> Z) d st,
     build (init g) = Some (d, st) /\
     lookup_entry st d "negative 8-bit defined integer" = Some (PInt 0) /\
     int_array_entry st d "negative 8-bit defined integer array" 10000
       (fun z => z = 0)).
Proof.
  split.
  - intros g. destruct (build_entries g) as (d & st & E & _ & Hent).
    exists d, st. split; [exact E|]. split; int_band Hent.
  - exists (fun _ => 0).
    destruct (build_entries (fun _ => 0)) as (d & st & E & Ho & Hent).
    exists d, st. split; [exact E|]. split.
    + apply (neg_scalar_const st d Hent 0 _ 0 255 Ho); [pick_entry | lia].
    + apply (neg_array_const st d Hent 0 _ _ 0 255 Ho); [pick_entry | lia | lia].
Qed.



(** C6. For the unsigned widths 16, 24, 32 and 64, the scalar entry and
    each of the 10,000 elements of the array lie strictly above the
    previous width's maximum and at or below the width's own maximum; the
    negated entries and arrays lie in the mirrored ranges. *)
Theorem defined_width_bands (g : nat -> Z) :
  exists d st,
    build (init g) = Some (d, st) /\
    (int_entry st d "unsigned 16-bit defined integer" (fun z => 255 < z <= 65535) /\
     int_array_entry st d "unsigned 16-bit defined integer array" 10000
       (fun z => 255 < z <= 65535) /\
     int_entry st d "negative 16-bit defined integer" (fun z => -65535 <= z < -255) /\
     int_array_entry st d "negative 16-bit defined integer array" 10000
       (fun z => -65535 <= z < -255)) /\
    (int_entry st d "unsigned 24-bit defined integer" (fun z => 65535 < z <= 16777215) /\
     int_array_entry st d "unsigned 24-bit defined integer array" 10000
       (fun z => 65535 < z <= 16777215) /\
     int_entry st d "negative 24-bit defined integer"
       (fun z => -16777215 <= z < -65535) /\
     int_array_entry st d "negative 24-bit defined integer array" 10000
       (fun z => -16777215 <= z < -65535)) /\
    (int_entry st d "unsigned 32-bit defined integer"
       (fun z => 16777215 < z <= 4294967295) /\
     int_array_entry st d "unsigned 32-bit defined integer array" 10000
       (fun z => 16777215 < z <= 4294967295) /\
     int_entry st d "negative 32-bit defined integer"
       (fun z => -4294967295 <= z < -16777215) /\
     int_array_entry st d "negative 32-bit defined integer array" 10000
       (fun z => -4294967295 <= z < -16777215)) /\
    (int_entry st d "unsigned 64-bit defined integer"
       (fun z => 4294967295 < z <= 18446744073709551615) /\
     int_array_entry st d "unsigned 64-bit defined integer array" 10000
       (fun z => 4294967295 < z <= 18446744073709551615) /\
     int_entry st d "negative 64-bit defined integer"
       (fun z => -18446744073709551615 <= z < -4294967295) /\
     int_array_entry st d "negative 64-bit defined integer array" 10000
       (fun z => -18446744073709551615 <= z < -4294967295)).
Proof.
  destruct (build_entries g) as (d & st & E & _ & Hent).
  exists d, st. split; [exact E|].
  repeat apply conj; int_band Hent.
Qed.

(** C3, what the code does. In every run each of the 10,000 elements of
    "resizing integer array" is negative, between [-(2^56 - 1)] and
    [-2^32], and each of the 100 elements of "negative big integer array"
    is positive, between [2^2040] and [2^100000]: line 74 negates the
    draw although its label is the positive band, and line 87 does not
    negate it although its label is the negative band. *)
Theorem resizing_and_big_arrays_signs (g : nat -> Z) :
  exists d st,
    build (init g) = Some (d, st) /\
    int_array_entry st d "resizing integer array" 10000
      (fun z => - 72057594037927935 <= z <= - 4294967296) /\
    int_array_entry st d "negative big integer array" 100
      (fun z => 2 ^ 2040 <= z <= INT_UPPER_LIMIT).
Proof.
  destruct (build_entries g) as (d & st & E & _ & Hent).
  pose proof pow2_2040_lt_limit.
  exists d, st. split; [exact E|]. split; int_band Hent.
Qed.

(** ** Reading the store as a tree *)

Lemma has_tree_list h0 n xs :
  Forall (fun x => exists j, has_tree h0 n x j) xs ->
  exists js,
    (forall m rest, (n <= m)%nat -> mapM (reify m (h0 ++ rest)) xs = Some js) /\
    Forall strings_ok js.
Proof.
  induction 1 as [|x xs (j & Hj & Hok) _ (js & Hjs & Hoks)].
  - exists []. split; [done | constructor].
  - exists (j :: js). split; [|by constructor].
    intros m rest Hm. cbn [mapM]. rewrite (Hj m rest Hm). simpl.
    by rewrite (Hjs m rest Hm).
Qed.

Lemma mapM_entries (f : pyval -> option json) (kvs : list (string * pyval)) js :
  mapM f (map snd kvs) = Some js ->
  mapM (fun kv => pair kv.1 <$> f kv.2) kvs = Some (zip (map fst kvs) js).
Proof.
  revert js. induction kvs as [|[k v] kvs IH]; intros js; simpl.
  - by intros [= <-].
  - destruct (f v) as [j|]; simpl; [|done].
    destruct (mapM f (map snd kvs)) as [js'|]; simpl; [|done].
    intros [= <-]. by rewrite (IH js' eq_refl).
Qed.

Lemma mapM_app_Some {A B} (f : A -> option B) xs ys a b :
  mapM f xs = Some a -> mapM f ys = Some b -> mapM f (xs ++ ys) = Some (a ++ b).
Proof.
  rewrite !mapM_Some. apply Forall2_app.
Qed.

Lemma strings_ok_arr js : Forall strings_ok js -> strings_ok (JArr js).
Proof.
  intros H. unfold strings_ok. simpl. apply Forall_concat, Forall_fmap.
  eapply Forall_impl; [exact H|]. by intros j Hj.
Qed.

Lemma strings_ok_obj (ks : list string) js :
  Forall strings_ok js -> strings_ok (JObj (zip ks js)).
Proof.
  intros H. unfold strings_ok. simpl. apply Forall_concat, Forall_fmap.
  revert ks. induction H as [|j js Hj _ IH]; intros [|k ks]; simpl; try constructor.
  - exact Hj.
  - apply IH.
Qed.

Lemma has_tree_mono h0 n n' v j : (n <= n')%nat -> has_tree h0 n v j -> has_tree h0 n' v j.
Proof. intros Hn [H Hok]. split; [|done]. intros m rest Hm. apply H. lia. Qed.

Lemma reify_closed h0 :
  heap_ok h0 ->
  forall n v, val_ok n v -> (n <= length h0)%nat -> exists j, has_tree h0 n v j.
Proof.
  intros Hh n. induction n as [n IH] using lt_wf_ind. intros v Hv Hn.
  destruct v as [| b | s | z | t | m e | l].
  - exists JNull. split; [by intros [|m] rest _ | constructor].
  - exists (JBool b). split; [by intros [|m] rest _ | constructor].
  - exists (JStr s). split; [by intros [|m] rest _ |].
    unfold strings_ok. simpl. by repeat constructor.
  - exists (JInt z). split; [by intros [|m] rest _ | constructor].
  - exists (JDecimal t). split; [by intros [|m] rest _ | constructor].
  - exists (JFloat m e). split; [by intros [|m'] rest _ | constructor].
  - simpl in Hv.
    destruct (lookup_lt_is_Some_2 h0 l) as [o Ho]; [lia|].
    pose proof (Hh l o Ho) as Hobj.
    assert (forall xs, Forall (val_ok l) xs ->
              Forall (fun x => exists j, has_tree h0 l x j) xs) as Hall.
    { intros xs HF. eapply Forall_impl; [exact HF|].
      intros x Hx. apply (IH l); [lia | exact Hx | lia]. }
    destruct o as [xs | kvs]; simpl in Hobj.
    + destruct (has_tree_list h0 l xs (Hall _ Hobj)) as (js & Hjs & Hoks).
      exists (JArr js). split; [|by apply strings_ok_arr].
      intros [|m] rest Hm; [lia|]. cbn [reify].
      rewrite (lookup_app_l_Some _ _ _ _ Ho). rewrite Hjs by lia. done.
    + assert (Forall (val_ok l) (map snd kvs)) as Hvals.
      { apply Forall_fmap. eapply Forall_impl; [exact Hobj|]. by intros [k v]. }
      destruct (has_tree_list h0 l _ (Hall _ Hvals)) as (js & Hjs & Hoks).
      exists (JObj (zip (map fst kvs) js)). split; [|by apply strings_ok_obj].
      intros [|m] rest Hm; [lia|]. cbn [reify].
      rewrite (lookup_app_l_Some _ _ _ _ Ho).
      rewrite (mapM_entries _ _ js); [done|]. apply Hjs. lia.
Qed.

Lemma trees_of h0 n xs :
  heap_ok h0 -> (n <= length h0)%nat -> Forall (val_ok n) xs ->
  exists js, Forall2 (has_tree h0 n) xs js.
Proof.
  intros Hh Hn. induction 1 as [|x xs Hx _ [js Hjs]].
  - exists []. constructor.
  - destruct (reify_closed h0 Hh n x Hx Hn) as [j Hj].
    exists (j :: js). by constructor.
Qed.

Lemma trees_mapM h0 n xs js m rest :
  Forall2 (has_tree h0 n) xs js -> (n <= m)%nat ->
  mapM (reify m (h0 ++ rest)) xs = Some js.
Proof.
  intros HF Hm. apply mapM_Some_2. eapply Forall2_impl; [exact HF|].
  intros x j [Hj _]. by apply Hj.
Qed.

Lemma trees_strings_ok h0 n xs js :
  Forall2 (has_tree h0 n) xs js -> Forall strings_ok js.
Proof.
  induction 1 as [|x j xs js [_ Hok] _ IH]; constructor; auto.
Qed.

Lemma reify_list m h l xs js :
  h !! l = Some (OList xs) -> mapM (reify m h) xs = Some js ->
  reify (S m) h (PRef l) = Some (JArr js).
Proof. intros Hl Hjs. cbn [reify]. by rewrite Hl, Hjs. Qed.

Lemma reify_dict m h l kvs js :
  h !! l = Some (ODict kvs) -> mapM (reify m h) (map snd kvs) = Some js ->
  reify (S m) h (PRef l) = Some (JObj (zip (map fst kvs) js)).
Proof.
  intros Hl Hjs. cbn [reify]. rewrite Hl. by rewrite (mapM_entries _ _ js).
Qed.

Lemma Forall2_values {A} (P : pyval -> A -> Prop) (kvs : list (string * pyval)) js :
  Forall2 P (map snd kvs) js -> Forall2 (fun kv j => P kv.2 j) kvs js.
Proof.
  revert js. induction kvs as [|[k v] kvs IH]; intros js H; simpl in H.
  - apply Forall2_nil_inv_l in H as ->. constructor.
  - apply Forall2_cons_inv_l in H as (j & js' & Hj & Hjs & ->).
    constructor; [exact Hj | by apply IH].
Qed.

Lemma str_app_assoc (a b c : string) : (a +:+ b) +:+ c = a +:+ (b +:+ c).
Proof.
  induction a as [|x a IH]; [reflexivity|].
  change (String x ((a +:+ b) +:+ c) = String x (a +:+ (b +:+ c))). by f_equal.
Qed.

Lemma str_app_nil_r (a : string) : a +:+ "" = a.
Proof.
  induction a as [|x a IH]; [reflexivity|].
  change (String x (a +:+ "") = String x a). by f_equal.
Qed.

(** *** The trees of the corpus objects

    [h0] holds the objects of the display, [vals] are the values of its
    entries with trees [js]; the dictionary, the list
    [multi_type_array_3] and its copy come right after [h0]. *)
Section Trees.

Variables (h0 : list pyobj) (kvs : list (string * pyval)) (js : list json).
Hypothesis trees : Forall2 (has_tree h0 (length h0)) (map snd kvs) js.

Let T := length h0.
Let array_3 : json := JArr (js ++ [JArr js]).
Let entries_3 : list (string * pyval) :=
  kvs ++ [("multi-type array 3"%string, PRef (T + 1)%nat)].
Let emitted : list (string * json) := zip (map fst entries_3) (js ++ [array_3]).

Variable rest : list pyobj.
Let h := h0 ++ rest.
Hypothesis copy_at : h !! (T + 2)%nat = Some (OList (map snd kvs)).
Hypothesis list_at :
  h !! (T + 1)%nat = Some (OList (map snd kvs ++ [PRef (T + 2)%nat])).

Lemma tree_values m : (T <= m)%nat -> mapM (reify m h) (map snd kvs) = Some js.
Proof. intros Hm. by apply trees_mapM with T. Qed.

Lemma tree_copy m : (T + 1 <= m)%nat -> reify m h (PRef (T + 2)%nat) = Some (JArr js).
Proof.
  intros Hm. destruct m as [|m]; [lia|].
  apply reify_list with (map snd kvs); [exact copy_at|]. apply tree_values. lia.
Qed.

Lemma tree_array_3 m : (T + 2 <= m)%nat -> reify m h (PRef (T + 1)%nat) = Some array_3.
Proof.
  intros Hm. destruct m as [|m]; [lia|].
  eapply reify_list; [exact list_at|].
  apply mapM_app_Some; [apply tree_values; lia|].
  cbn [mapM]. rewrite tree_copy by lia. done.
Qed.

Lemma tree_entries_3 m :
  (T + 2 <= m)%nat -> mapM (reify m h) (map snd entries_3) = Some (js ++ [array_3]).
Proof.
  intros Hm. unfold entries_3. rewrite map_app.
  apply mapM_app_Some; [apply tree_values; lia|].
  cbn [map snd mapM]. rewrite tree_array_3 by lia. done.
Qed.

Lemma tree_dict_3 m l :
  h !! l = Some (ODict entries_3) -> (T + 3 <= m)%nat ->
  reify m h (PRef l) = Some (JObj emitted).
Proof.
  intros Hl Hm. destruct m as [|m]; [lia|].
  apply reify_dict; [exact Hl|]. apply tree_entries_3. lia.
Qed.

Lemma tree_final m l c :
  h !! l = Some (ODict (entries_3 ++ [("object 4"%string, PRef c)])) ->
  h !! c = Some (ODict entries_3) -> (T + 4 <= m)%nat ->
  reify m h (PRef l) = Some (JObj (emitted ++ [("object 4"%string, JObj emitted)])).
Proof.
  intros Hl Hc Hm. destruct m as [|m]; [lia|].
  rewrite (reify_dict m h l _ ((js ++ [array_3]) ++ [JObj emitted]) Hl).
  - rewrite map_app. rewrite zip_with_app; [done|].
    rewrite length_map. unfold entries_3. rewrite !length_app. simpl.
    by rewrite <- (Forall2_length _ _ _ trees), length_map.
  - rewrite map_app.
    apply mapM_app_Some; [apply tree_entries_3; lia|].
    cbn [map snd mapM]. rewrite (tree_dict_3 m c Hc) by lia. done.
Qed.

End Trees.

Section EmissionProofs.

Variable dumps : json -> string.

Lemma dumps_value_run st v j :
  reify (S (length (heap st))) (heap st) v = Some j ->
  dumps_value dumps v st = Some (dumps j, st).
Proof. intros E. unfold dumps_value. by rewrite E. Qed.

Lemma records_app js1 js2 :
  records dumps (js1 ++ js2) = records dumps js1 +:+ records dumps js2.
Proof.
  induction js1 as [|j js1 IH]; cbn [records app]; [done|].
  by rewrite IH, !str_app_assoc.
Qed.

(** The loop of lines 96-97 prints one record per entry, in order. *)
Lemma emit_loop (h : list pyobj) l (D sub : list (string * pyval)) js :
  h !! l = Some (ODict D) ->
  Forall (fun kv => assoc D kv.1 = Some kv.2) sub ->
  Forall2 (fun kv j => reify (S (length h)) h kv.2 = Some j) sub js ->
  forall st, heap st = h ->
    for_in (map fst sub)
      (fun x => let* v := getitem (PRef l) x in
                let* s := dumps_value dumps v in
                print s newline) st
    = Some (tt, set_stdout (stdout st +:+ records dumps js) st).
Proof.
  intros Hl HD HF. revert HD.
  induction HF as [|[k v] j sub js Hj _ IH]; intros HD st Hst.
  - simpl. unfold ret. rewrite str_app_nil_r. by destruct st.
  - apply Forall_cons in HD as [Hk HD].
    cbn [map fst for_in records]. cbn [fst snd] in Hk, Hj.
    assert (heap st !! l = Some (ODict D)) as Hl' by (by rewrite Hst).
    rewrite (bind_run _ _ st tt (set_stdout (stdout st +:+ dumps j +:+ newline) st)).
    + rewrite IH by done. cbn [stdout set_stdout]. unfold set_stdout. cbn.
      by rewrite !str_app_assoc.
    + rewrite (bind_run _ _ _ _ _ (getitem_run _ _ _ _ _ Hl' Hk)).
      rewrite (bind_run _ _ st (dumps j) st); [done|].
      apply dumps_value_run. by rewrite Hst.
Qed.

(** Lines 96-101 on the store that [build] leaves. *)
Lemma emit_run st h0 kvs js :
  heap st =
    h0 ++ [ODict (kvs ++ [("multi-type array 3"%string, PRef (length h0 + 1)%nat)]);
           OList (map snd kvs ++ [PRef (length h0 + 2)%nat]);
           OList (map snd kvs)] ->
  Forall2 (has_tree h0 (length h0)) (map snd kvs) js ->
  NoDup (map fst kvs ++ ["multi-type array 3"%string]) ->
  "object 4"%string ∉ map fst kvs ++ ["multi-type array 3"%string] ->
  let array_3 := JArr (js ++ [JArr js]) in
  let entries_3 := kvs ++ [("multi-type array 3"%string, PRef (length h0 + 1)%nat)] in
  let emitted := zip (map fst entries_3) (js ++ [array_3]) in
  emit dumps (PRef (length h0)) st =
    Some (tt,
          set_stdout
            (stdout st +:+ records dumps (js ++ [array_3]) +:+
             dumps (JObj (emitted ++ [("object 4"%string, JObj emitted)])))
            (set_heap
               (h0 ++ [ODict (entries_3 ++ [("object 4"%string, PRef (length h0 + 3)%nat)]);
                       OList (map snd kvs ++ [PRef (length h0 + 2)%nat]);
                       OList (map snd kvs);
                       ODict entries_3]) st)).
Proof.
  intros Hh Htrees Hnd Hfresh array_3 entries_3 emitted.
  set (T := length h0) in *.
  set (DT := ODict entries_3) in *.
  set (LL := OList (map snd kvs ++ [PRef (T + 2)%nat])) in *.
  set (LC := OList (map snd kvs)) in *.
  assert (map fst entries_3 = map fst kvs ++ ["multi-type array 3"%string]) as Hkeys.
  { unfold entries_3. by rewrite map_app. }
  assert (length (heap st) = (T + 3)%nat) as Hlen.
  { rewrite Hh, length_app. simpl. unfold T. lia. }
  assert (heap st !! T = Some DT) as HT.
  { rewrite Hh, lookup_app_r by (unfold T; lia). by rewrite Nat.sub_diag. }
  assert (forall rest' x, rest' !! 2%nat = Some x -> (h0 ++ rest') !! (T + 2)%nat = Some x)
    as Hat2.
  { intros rest' x Hx. rewrite lookup_app_r by (unfold T; lia).
    by replace (T + 2 - length h0)%nat with 2%nat by (unfold T; lia). }
  assert (forall rest' x, rest' !! 1%nat = Some x -> (h0 ++ rest') !! (T + 1)%nat = Some x)
    as Hat1.
  { intros rest' x Hx. rewrite lookup_app_r by (unfold T; lia).
    by replace (T + 1 - length h0)%nat with 1%nat by (unfold T; lia). }
  unfold emit.
  rewrite (bind_run _ _ _ _ _ (keys_run _ _ _ HT)).
  (* the loop *)
  rewrite (bind_run _ _ st tt
             (set_stdout (stdout st +:+ records dumps (js ++ [array_3])) st)).
  2:{ apply (emit_loop (heap st) T entries_3 entries_3); [exact HT | | | done].
      - apply assoc_all. by rewrite Hkeys.
      - apply (Forall2_values
                 (fun x j => reify (S (length (heap st))) (heap st) x = Some j)).
        apply mapM_Some_1. rewrite Hh.
        apply (tree_entries_3 h0 kvs js Htrees); [by apply Hat2 | by apply Hat1 |].
        rewrite <- Hh, Hlen. fold T. lia. }
  set (st1 := set_stdout _ st).
  (* the copy and the new entry *)
  rewrite (bind_run _ _ _ _ _ (copy_run st1 T DT HT)).
  change (heap st1) with (heap st). rewrite Hlen.
  set (st2 := set_heap (heap st ++ [DT]) st1).
  assert (heap st2 !! T = Some DT) as HT2.
  { unfold st2. cbn [heap set_heap]. by apply lookup_app_l_Some. }
  rewrite (bind_run _ _ _ _ _ (setitem_run st2 T entries_3 "object 4" _ HT2)).
  rewrite assoc_set_fresh by (by rewrite Hkeys).
  set (DF := ODict (entries_3 ++ [("object 4"%string, PRef (T + 3)%nat)])).
  assert (<[T := DF]> (heap st2) = h0 ++ [DF; LL; LC; DT]) as Hh3.
  { unfold st2. cbn [heap set_heap]. rewrite Hh, <- app_assoc.
    replace T with (length h0 + 0)%nat at 1 by (unfold T; lia).
    by rewrite (insert_app_r h0 _ 0). }
  rewrite Hh3.
  set (st3 := set_heap (h0 ++ [DF; LL; LC; DT]) st2).
  (* the final record *)
  rewrite (bind_run _ _ st3
             (dumps (JObj (emitted ++ [("object 4"%string, JObj emitted)]))) st3).
  2:{ apply dumps_value_run. unfold st3. cbn [heap set_heap].
      apply (tree_final h0 kvs js Htrees [DF; LL; LC; DT]
               (Hat2 [DF; LL; LC; DT] LC eq_refl) (Hat1 [DF; LL; LC; DT] LL eq_refl)
               _ (length h0) (T + 3)%nat).
      - rewrite lookup_app_r by lia. by rewrite Nat.sub_diag.
      - rewrite lookup_app_r by (unfold T; lia).
        by replace (T + 3 - length h0)%nat with 3%nat by (unfold T; lia).
      - rewrite length_app. simpl. fold T. lia. }
  unfold print, st3, st2, st1. destruct st. cbn. unfold set_stdout, set_heap. cbn.
  by rewrite str_app_nil_r, str_app_assoc.
Qed.

Lemma main_build g d st_b :
  build (init g) = Some (d, st_b) -> main dumps (init g) = emit dumps d st_b.
Proof.
  unfold main, build. intros E.
  rewrite (bind_run preamble _ (init g) tt _ (preamble_run (init g))) in E.
  rewrite (bind_run preamble _ (init g) tt _ (preamble_run (init g))).
  exact (bind_run _ _ _ _ _ E).
Qed.

(** The whole run: the corpus before emission, the trees of its entries,
    and the state the script ends in. *)
Lemma main_spec g :
  exists (h0 : list pyobj) (kvs : list (string * pyval)) (js : list json) st_b st,
    let T := length h0 in
    let array_3 := JArr (js ++ [JArr js]) in
    let entries_3 := kvs ++ [("multi-type array 3"%string, PRef (T + 1)%nat)] in
    let emitted := zip (map fst entries_3) (js ++ [array_3]) in
    build (init g) = Some (PRef T, st_b) /\
    heap st_b = h0 ++ [ODict entries_3; OList (map snd kvs ++ [PRef (T + 2)%nat]);
                       OList (map snd kvs)] /\
    map fst kvs = labels /\
    Forall2 (has_tree h0 T) (map snd kvs) js /\
    main dumps (init g) = Some (tt, st) /\
    stdout st = records dumps (js ++ [array_3]) +:+
                dumps (JObj (emitted ++ [("object 4"%string, JObj emitted)])) /\
    heap st = h0 ++ [ODict (entries_3 ++ [("object 4"%string, PRef (T + 3)%nat)]);
                     OList (map snd kvs ++ [PRef (T + 2)%nat]);
                     OList (map snd kvs);
                     ODict entries_3].
Proof.
  destruct (build_spec g) as (h0 & kvs & st_b & E & Hh & Ho & Hs & _ & Hok & Hk & HF & _).
  assert (Forall (val_ok (length h0)) (map snd kvs)) as Hvals.
  { apply Forall_fmap. eapply Forall_impl; [exact HF|]. by intros [k v]. }
  destruct (trees_of h0 (length h0) _ Hok (le_n _) Hvals) as [js Hjs].
  eexists h0, kvs, js, st_b, _. cbn zeta.
  split; [exact E|]. split; [exact Hh|]. split; [exact Hk|]. split; [exact Hjs|].
  rewrite (main_build g _ _ E).
  rewrite (emit_run st_b h0 kvs js Hh Hjs).
  - split; [reflexivity|]. split; [|reflexivity].
    cbn [stdout set_stdout]. by rewrite Hs.
  - rewrite Hk. apply labels_with_array_3_nodup.
  - rewrite Hk. apply labels_fresh_object_4.
Qed.

End EmissionProofs.

Lemma lookup_after {A} (l1 l2 : list A) (i : nat) x :
  l2 !! i = Some x -> (l1 ++ l2) !! (length l1 + i)%nat = Some x.
Proof.
  intros H. rewrite lookup_app_r by lia.
  by replace (length l1 + i - length l1)%nat with i by lia.
Qed.

Lemma lookup_after_0 {A} (l1 l2 : list A) x :
  l2 !! 0%nat = Some x -> (l1 ++ l2) !! length l1 = Some x.
Proof. intros H. rewrite lookup_app_r by lia. by rewrite Nat.sub_diag. Qed.

Lemma assoc_snoc_fresh kvs k v : k ∉ map fst kvs -> assoc (kvs ++ [(k, v)]) k = Some v.
Proof.
  induction kvs as [|[k' v'] kvs IH]; intros Hk; simpl.
  - by rewrite decide_True.
  - simpl in Hk. apply not_elem_of_cons in Hk as [Hne Hk].
    rewrite decide_False by congruence. by apply IH.
Qed.

(** The entries of the corpus, "multi-type array 3" included, have the
    trees [js ++ [array_3]] at every sufficient depth. *)
Lemma entries_3_trees h0 kvs js rest m :
  Forall2 (has_tree h0 (length h0)) (map snd kvs) js ->
  (h0 ++ rest) !! (length h0 + 2)%nat = Some (OList (map snd kvs)) ->
  (h0 ++ rest) !! (length h0 + 1)%nat =
    Some (OList (map snd kvs ++ [PRef (length h0 + 2)%nat])) ->
  (length h0 + 2 <= m)%nat ->
  Forall2 (fun kv j => reify m (h0 ++ rest) kv.2 = Some j)
    (kvs ++ [("multi-type array 3"%string, PRef (length h0 + 1)%nat)])
    (js ++ [JArr (js ++ [JArr js])]).
Proof.
  intros Htrees H2 H1 Hm.
  apply (Forall2_values (fun x j => reify m (h0 ++ rest) x = Some j)).
  apply mapM_Some_1. by apply (tree_entries_3 h0 kvs js Htrees rest H2 H1).
Qed.

Lemma valid_code_point_non_surrogate c : valid_code_point c -> non_surrogate c.
Proof. unfold valid_code_point, non_surrogate. lia. Qed.

Lemma strings_ok_non_surrogate j :
  strings_ok j -> Forall (Forall non_surrogate) (json_strings j).
Proof.
  unfold strings_ok. intros H. eapply Forall_impl; [exact H|].
  intros s Hs. eapply Forall_impl; [exact Hs|]. apply valid_code_point_non_surrogate.
Qed.

Lemma strings_ok_corpus h0 n (vals : list pyval) js (ks : list string) :
  Forall2 (has_tree h0 n) vals js ->
  strings_ok (JObj (zip ks (js ++ [JArr (js ++ [JArr js])]))).
Proof.
  intros Htrees. pose proof (trees_strings_ok _ _ _ _ Htrees) as Hjs.
  apply strings_ok_obj. apply Forall_app. split; [exact Hjs|].
  constructor; [|constructor]. apply strings_ok_arr, Forall_app.
  split; [exact Hjs|]. constructor; [|constructor]. by apply strings_ok_arr.
Qed.

Section RunStrings.

Variables (st : state) (d : pyval).
Hypothesis entries :
  forall k m Q, (k, m) ∈ test_object_items -> stable Q -> entry_spec m Q ->
    exists v, lookup_entry st d k = Some v /\ Q st v.

Lemma ascii_string_in k n :
  (k, ascii_string n) ∈ test_object_items -> 0 <= n ->
  exists s, lookup_entry st d k = Some (PStr s) /\ Z.of_nat (length s) = n /\
            Forall (fun c => 0 <= c < 128) s.
Proof.
  intros Hin Hn.
  destruct (entries k _ _ Hin (stable_pure _) (entry_ascii_string n))
    as (v & Hv & s & -> & HF & Hlen).
  exists s. split; [exact Hv|]. split; [lia | exact HF].
Qed.

Lemma utf8_string_in k n :
  (k, utf8_string n) ∈ test_object_items -> 0 <= n ->
  exists s, lookup_entry st d k = Some (PStr s) /\ Z.of_nat (length s) = n /\
            Forall non_surrogate s.
Proof.
  intros Hin Hn.
  destruct (entries k _ _ Hin (stable_pure _) (entry_utf8_string n))
    as (v & Hv & s & -> & HF & Hlen).
  exists s. split; [exact Hv|]. split; [lia|].
  eapply Forall_impl; [exact HF|]. apply valid_code_point_non_surrogate.
Qed.

End RunStrings.

(** C7. Every string occurring anywhere in the corpus, as a scalar entry
    or inside an array or object at any depth, consists of code points
    outside the surrogate range; "string ascii" has exactly 100,000 code
    points, all in [[0, 128)], and "string utf-8" has exactly 100,000
    code points, none of them a surrogate. *)
Theorem corpus_strings_valid (g : nat -> Z) :
  exists d st,
    build (init g) = Some (d, st) /\
    (exists s, lookup_entry st d "string ascii" = Some (PStr s) /\
               Z.of_nat (length s) = 100000 /\ Forall (fun c => 0 <= c < 128) s) /\
    (exists s, lookup_entry st d "string utf-8" = Some (PStr s) /\
               Z.of_nat (length s) = 100000 /\ Forall non_surrogate s) /\
    (exists j, reify (S (length (heap st))) (heap st) d = Some j /\
               Forall (Forall non_surrogate) (json_strings j)).
Proof.
  destruct (build_spec g) as (h0 & kvs & st & E & Hh & _ & _ & _ & Hok & Hk & HF & _).
  destruct (build_entries g) as (d' & st' & E' & _ & Hent).
  rewrite E in E'. injection E' as <- <-.
  exists (PRef (length h0)), st. split; [exact E|].
  split; [apply (ascii_string_in st _ Hent); [pick_entry | lia]|].
  split; [apply (utf8_string_in st _ Hent); [pick_entry | lia]|].
  assert (Forall (val_ok (length h0)) (map snd kvs)) as Hvals.
  { apply Forall_fmap. eapply Forall_impl; [exact HF|]. by intros [k v]. }
  destruct (trees_of h0 (length h0) _ Hok (le_n _) Hvals) as [js Hjs].
  eexists. split.
  - rewrite Hh.
    apply (tree_dict_3 h0 kvs js Hjs);
      [by apply (lookup_after h0 _ 2) | by apply (lookup_after h0 _ 1)
      | by apply lookup_after_0 | rewrite length_app; simpl; lia].
  - apply strings_ok_non_surrogate. by eapply strings_ok_corpus.
Qed.

(** C5. "multi-type array 3" is a list made of the values of all earlier
    entries, in insertion order, followed by one more element: a separate
    list object holding exactly those same values. The entry refers
    neither to itself nor to that copy from among the earlier values, so
    the structure is a nested duplicate and not a cycle, and as a tree it
    is the array of the earlier trees followed by the array of them. *)
Theorem multi_type_array_3_shape (g : nat -> Z) :
  exists d st entries l c js,
    build (init g) = Some (d, st) /\
    dict_items st d = Some (entries ++ [("multi-type array 3"%string, PRef l)]) /\
    map fst entries = labels /\
    lookup_entry st d "multi-type array 3" = Some (PRef l) /\
    elements st (PRef l) = Some (map snd entries ++ [PRef c]) /\
    elements st (PRef c) = Some (map snd entries) /\
    l <> c /\ (PRef l ∉ map snd entries) /\ (PRef c ∉ map snd entries) /\
    Forall2 (fun v j => reify (S (length (heap st))) (heap st) v = Some j)
      (map snd entries) js /\
    reify (S (length (heap st))) (heap st) (PRef l) = Some (JArr (js ++ [JArr js])).
Proof.
  destruct (build_spec g) as (h0 & kvs & st & E & Hh & _ & _ & _ & Hok & Hk & HF & _).
  assert (Forall (val_ok (length h0)) (map snd kvs)) as Hvals.
  { apply Forall_fmap. eapply Forall_impl; [exact HF|]. by intros [k v]. }
  destruct (trees_of h0 (length h0) _ Hok (le_n _) Hvals) as [js Hjs].
  assert (forall n : nat, (length h0 <= n)%nat -> PRef n ∉ map snd kvs) as Hfresh.
  { intros n Hn Hin. eapply Forall_forall in Hvals; [|exact Hin]. simpl in Hvals. lia. }
  assert (length (heap st) = (length h0 + 3)%nat) as Hlen.
  { rewrite Hh, length_app. simpl. lia. }
  exists (PRef (length h0)), st, kvs, (length h0 + 1)%nat, (length h0 + 2)%nat, js.
  split; [exact E|].
  assert (heap st !! length h0 =
          Some (ODict (kvs ++ [("multi-type array 3"%string, PRef (length h0 + 1)%nat)])))
    as H0 by (rewrite Hh; by apply lookup_after_0).
  assert (heap st !! (length h0 + 1)%nat =
          Some (OList (map snd kvs ++ [PRef (length h0 + 2)%nat])))
    as H1 by (rewrite Hh; by apply (lookup_after h0 _ 1)).
  assert (heap st !! (length h0 + 2)%nat = Some (OList (map snd kvs)))
    as H2 by (rewrite Hh; by apply (lookup_after h0 _ 2)).
  split. { unfold dict_items. by rewrite H0. }
  split; [exact Hk|].
  split. { unfold lookup_entry. rewrite H0. apply assoc_snoc_fresh. rewrite Hk.
           apply labels_fresh_multi_type_array_3. }
  split. { unfold elements. by rewrite H1. }
  split. { unfold elements. by rewrite H2. }
  split; [lia|]. split; [apply Hfresh; lia|]. split; [apply Hfresh; lia|].
  rewrite Hlen. rewrite Hh in H1, H2 |- *. split.
  - apply mapM_Some_1. apply trees_mapM with (length h0); [exact Hjs | lia].
  - apply (tree_array_3 h0 kvs js Hjs _ H2 H1). lia.
Qed.

(** C1. For each entry of the corpus, in insertion order, the program
    writes one record, the serialization of the value alone, followed by
    a newline; after the last entry it writes the serialization of the
    whole dictionary, which by then also holds the copy under "object 4",
    with no newline after it; and it writes nothing else. *)
Theorem emission_stream (dumps : json -> string) (g : nat -> Z) :
  exists d st_b entries js st,
    build (init g) = Some (d, st_b) /\
    dict_items st_b d = Some entries /\
    Forall2 (fun kv j => reify (S (length (heap st_b))) (heap st_b) kv.2 = Some j)
      entries js /\
    main dumps (init g) = Some (tt, st) /\
    stdout st =
      records dumps js +:+
      dumps (JObj (zip (map fst entries) js ++
                   [("object 4"%string, JObj (zip (map fst entries) js))])).
Proof.
  pose proof (main_spec dumps g) as H.
  destruct H as (h0 & kvs & js & st_b & st & H). cbv zeta in H.
  destruct H as (E & Hh & Hk & Htrees & Em & Hout & _).
  exists (PRef (length h0)), st_b,
    (kvs ++ [("multi-type array 3"%string, PRef (length h0 + 1)%nat)]),
    (js ++ [JArr (js ++ [JArr js])]), st.
  split; [exact E|].
  split. { unfold dict_items. rewrite Hh.
           rewrite (lookup_after_0 h0 _ (ODict (kvs ++ [("multi-type array 3"%string,
                                                    PRef (length h0 + 1)%nat)])));
             reflexivity. }
  split; [|split; [exact Em | exact Hout]].
  rewrite Hh.
  apply (entries_3_trees h0 kvs js _ _ Htrees);
    [apply (lookup_after h0 _ 2); reflexivity
    | apply (lookup_after h0 _ 1); reflexivity
    | rewrite length_app; simpl; lia].
Qed.

(** C2. The final record is an object whose keys are the labels of all
    records emitted before it, in order, followed by the one additional
    key "object 4". The value under "object 4" is a separate dictionary
    object, the copy made before the key was added: it has exactly the
    entries the corpus had until then and so no key "object 4" of its
    own. *)
Theorem final_record_object_4 (dumps : json -> string) (g : nat -> Z) :
  exists d st_b entries js st c,
    build (init g) = Some (d, st_b) /\
    dict_items st_b d = Some entries /\
    map fst entries = labels ++ ["multi-type array 3"%string] /\
    Forall2 (fun kv j => reify (S (length (heap st_b))) (heap st_b) kv.2 = Some j)
      entries js /\
    main dumps (init g) = Some (tt, st) /\
    dict_items st d = Some (entries ++ [("object 4"%string, PRef c)]) /\
    dict_items st (PRef c) = Some entries /\
    d <> PRef c /\
    ("object 4"%string ∉ map fst entries) /\
    reify (S (length (heap st))) (heap st) d =
      Some (JObj (zip (map fst entries) js ++
                  [("object 4"%string, JObj (zip (map fst entries) js))])) /\
    stdout st =
      records dumps js +:+
      dumps (JObj (zip (map fst entries) js ++
                   [("object 4"%string, JObj (zip (map fst entries) js))])).
Proof.
  pose proof (main_spec dumps g) as H.
  destruct H as (h0 & kvs & js & st_b & st & H). cbv zeta in H.
  destruct H as (E & Hh & Hk & Htrees & Em & Hout & Hheap).
  assert (map fst (kvs ++ [("multi-type array 3"%string, PRef (length h0 + 1)%nat)])
          = labels ++ ["multi-type array 3"%string]) as Hkeys.
  { by rewrite map_app, Hk. }
  exists (PRef (length h0)), st_b,
    (kvs ++ [("multi-type array 3"%string, PRef (length h0 + 1)%nat)]),
    (js ++ [JArr (js ++ [JArr js])]), st, (length h0 + 3)%nat.
  split; [exact E|].
  split. { unfold dict_items. rewrite Hh.
           rewrite (lookup_after_0 h0 _ (ODict (kvs ++ [("multi-type array 3"%string,
                                                    PRef (length h0 + 1)%nat)])));
             reflexivity. }
  split; [exact Hkeys|].
  split.
  { rewrite Hh.
    apply (entries_3_trees h0 kvs js _ _ Htrees);
      [apply (lookup_after h0 _ 2); reflexivity
      | apply (lookup_after h0 _ 1); reflexivity
      | rewrite length_app; simpl; lia]. }
  split; [exact Em|].
  split. { unfold dict_items. rewrite Hheap.
           rewrite (lookup_after_0 h0 _
                      (ODict ((kvs ++ [("multi-type array 3"%string,
                                        PRef (length h0 + 1)%nat)]) ++
                              [("object 4"%string, PRef (length h0 + 3)%nat)])));
             reflexivity. }
  split. { unfold dict_items. rewrite Hheap.
           rewrite (lookup_after h0 _ 3
                      (ODict (kvs ++ [("multi-type array 3"%string,
                                       PRef (length h0 + 1)%nat)])));
             reflexivity. }
  split. { intros Heq. apply (f_equal (fun v => match v with PRef n => n | _ => 0%nat end))
             in Heq. lia. }
  split. { rewrite Hkeys. apply labels_fresh_object_4. }
  split; [|exact Hout].
  rewrite Hheap.
  apply (tree_final h0 kvs js Htrees) with (c := (length h0 + 3)%nat);
    [apply (lookup_after h0 _ 2); reflexivity
    | apply (lookup_after h0 _ 1); reflexivity
    | apply lookup_after_0; reflexivity
    | apply (lookup_after h0 _ 3); reflexivity
    | rewrite length_app; simpl; lia].
Qed.

(** *** The digit limit *)

Lemma str_conversions_set_limit n st :
  str_conversions (set_limit n st) = str_conversions st.
Proof. reflexivity. Qed.

Lemma format_int_run z st :
  limit_ok st -> Z.abs z <= INT_UPPER_LIMIT ->
  format_int z st = Some (repr_int z, count_conversion st).
Proof.
  intros Hl Hz. unfold format_int. pose proof (Hl z Hz).
  destruct (Z.ltb_spec (int_max_str_digits st)
              (Z.of_nat (length (digits (Z.abs z))))); [lia|].
  by rewrite andb_false_r.
Qed.

Lemma pow2_no_factor_5 n : 0 <= n -> ~ (5 | 2 ^ n).
Proof.
  revert n. apply (natlike_ind (fun n => ~ (5 | 2 ^ n))).
  - rewrite Z.pow_0_r. intros H. apply Z.divide_1_r_nonneg in H; lia.
  - intros n Hn IH H. rewrite Z.pow_succ_r in H by lia.
    apply IH. by apply (Z.gauss 5 2).
Qed.

Lemma limit_no_factor_5 : ~ (5 | INT_UPPER_LIMIT).
Proof. unfold INT_UPPER_LIMIT. apply pow2_no_factor_5. lia. Qed.

(** [2^100000] is not a power of ten: it has no factor 5. *)
Lemma limit_not_power_of_10 c : 0 <= c -> INT_UPPER_LIMIT <> 10 ^ c.
Proof.
  intros Hc Heq.
  destruct (Z.eq_dec c 0) as [->|Hne].
  { rewrite Z.pow_0_r in Heq.
    pose proof pow2_2040_lt_limit. pose proof pow2_2040_pos. lia. }
  apply limit_no_factor_5.
  rewrite Heq. replace c with (Z.succ (c - 1)) by lia.
  rewrite Z.pow_succ_r by lia. exists (2 * 10 ^ (c - 1)). lia.
Qed.

(** The text "{biggest integer}.{biggest integer}" has as many characters
    as the limit the program sets. *)
Lemma biggest_decimal_text_length :
  Z.of_nat (length (repr_int INT_UPPER_LIMIT ++ str "." ++ repr_int INT_UPPER_LIMIT))
  <= 2 * ceil_log10 INT_UPPER_LIMIT + 1.
Proof.
  pose proof limit_pos as Hpos.
  destruct (ceil_log10_spec INT_UPPER_LIMIT) as [H0 Hle]; [lia|].
  pose proof (limit_not_power_of_10 _ H0) as Hne.
  pose proof limit_digits_large as Hlarge.
  assert (Z.of_nat (length (digits INT_UPPER_LIMIT)) <= ceil_log10 INT_UPPER_LIMIT) as Hd.
  { apply digits_length; lia. }
  unfold repr_int. destruct (Z.ltb_spec INT_UPPER_LIMIT 0); [lia|].
  rewrite !length_app. change (length (str ".")) with 1%nat. lia.
Qed.

(** C8. The first thing the program does is to raise the interpreter's
    integer-to-string digit limit to [2 * ceil(log10(2^100000)) + 1]: at
    that point no integer has yet been converted, the rest of the program
    runs from there, the limit is still in force when the corpus has been
    built, it lets every integer up to the upper limit be converted, and
    it covers the length of "{biggest integer}.{biggest integer}". *)
Theorem digit_limit_configured_first (dumps : json -> string) (g : nat -> Z) :
  exists st1,
    preamble (init g) = Some (tt, st1) /\
    str_conversions st1 = 0%nat /\
    main dumps (init g) = (let* d := corpus in emit dumps d) st1 /\
    2 * ceil_log10 INT_UPPER_LIMIT + 1 <= int_max_str_digits st1 /\
    INT_UPPER_LIMIT <= 10 ^ ceil_log10 INT_UPPER_LIMIT /\
    (forall z, Z.abs z <= INT_UPPER_LIMIT ->
       format_int z st1 = Some (repr_int z, count_conversion st1)) /\
    Z.of_nat (length (repr_int INT_UPPER_LIMIT ++ str "." ++ repr_int INT_UPPER_LIMIT))
      <= int_max_str_digits st1 /\
    (exists d st_b, corpus st1 = Some (d, st_b) /\
                    int_max_str_digits st_b = int_max_str_digits st1).
Proof.
  exists (set_limit (2 * ceil_log10 INT_UPPER_LIMIT + 1) (init g)).
  pose proof (good_after_preamble g) as Hg.
  split; [apply preamble_run|].
  split; [rewrite str_conversions_set_limit; reflexivity|].
  split.
  { unfold main.
    rewrite (bind_run preamble _ (init g) tt _ (preamble_run (init g))). reflexivity. }
  split; [rewrite int_max_str_digits_set_limit; apply Z.le_refl|].
  split; [apply ceil_log10_spec; pose proof limit_pos; lia|].
  split; [intros z Hz; apply format_int_run; [apply Hg | exact Hz]|].
  split; [rewrite int_max_str_digits_set_limit; apply biggest_decimal_text_length|].
  destruct (corpus_spec _ Hg) as (h0 & kvs & st & E & _ & _ & _ & Hl & _).
  exists (PRef (length h0)), st. split; [exact E | exact Hl].
Qed.

(** * Further properties of the script *)

(** ** [str] of an integer *)

Lemma digits_aux_spec (fuel : nat) :
  forall n acc, 0 <= n < 10 ^ Z.of_nat (S fuel) ->
    exists ds,
      digits_aux (S fuel) n acc = ds ++ acc /\
      Forall is_digit ds /\
      (forall v, fold_left (fun a c => 10 * a + (c - 48)) ds v
                 = v * 10 ^ Z.of_nat (length ds) + n) /\
      n < 10 ^ Z.of_nat (length ds) /\
      (n = 0 \/ 10 ^ (Z.of_nat (length ds) - 1) <= n).
Proof.
  assert (forall n acc, 0 <= n < 10 ->
            exists ds, (48 + n mod 10) :: acc = ds ++ acc /\
              Forall is_digit ds /\
              (forall v, fold_left (fun a c => 10 * a + (c - 48)) ds v
                         = v * 10 ^ Z.of_nat (length ds) + n) /\
              n < 10 ^ Z.of_nat (length ds) /\
              (n = 0 \/ 10 ^ (Z.of_nat (length ds) - 1) <= n)) as Hone.
  { intros n acc Hn. exists [48 + n mod 10]. rewrite Z.mod_small by lia.
    split; [done|]. split; [constructor; [unfold is_digit; lia | constructor]|].
    split; [intros v; simpl; lia|]. split; [simpl; lia|]. simpl. lia. }
  induction fuel as [|fuel IH]; intros n acc Hn.
  - cbn [digits_aux]. change (10 ^ Z.of_nat 1) with 10 in Hn.
    destruct (Z.ltb_spec n 10) as [Hlt|Hge]; [|lia]. by apply Hone.
  - remember (S fuel) as f eqn:Hf. cbn [digits_aux].
    pose proof (Z.mod_pos_bound n 10 ltac:(lia)) as Hmod.
    destruct (Z.ltb_spec n 10) as [Hlt|Hge]; [apply Hone; lia|].
    rewrite Nat2Z.inj_succ, Z.pow_succ_r in Hn by lia. subst f.
    destruct (IH (n / 10) ((48 + n mod 10) :: acc)) as (ds & E & Hd & Hv & Hu & Hlo).
    { split; [apply Z.div_pos; lia|]. apply Z.div_lt_upper_bound; lia. }
    pose proof (Z.div_mod n 10 ltac:(lia)) as Hdm.
    assert (1 <= n / 10) by (apply Z.div_le_lower_bound; lia).
    exists (ds ++ [48 + n mod 10]).
    split; [by rewrite E, <- app_assoc|].
    split; [apply Forall_app; split; [done|]; constructor;
            [unfold is_digit; lia | constructor]|].
    rewrite length_app. cbn [length].
    replace (Z.of_nat (length ds + 1)) with (Z.succ (Z.of_nat (length ds))) by lia.
    rewrite Z.pow_succ_r by lia.
    split; [intros v; rewrite fold_left_app; cbn [fold_left]; rewrite Hv; lia|].
    split; [lia|]. right.
    assert (1 <= Z.of_nat (length ds)).
    { destruct ds; [simpl in Hu; lia | simpl; lia]. }
    replace (Z.succ (Z.of_nat (length ds)) - 1)
      with (Z.succ (Z.of_nat (length ds) - 1)) by lia.
    rewrite Z.pow_succ_r by lia. lia.
Qed.

Lemma digits_spec n :
  0 <= n ->
  Forall is_digit (digits n) /\ digits_value (digits n) = n /\
  n < 10 ^ Z.of_nat (length (digits n)) /\
  (n = 0 \/ 10 ^ (Z.of_nat (length (digits n)) - 1) <= n).
Proof.
  intros Hn. unfold digits, digits_value.
  destruct (digits_aux_spec (Z.to_nat (Z.log2 n)) n []) as (ds & E & Hd & Hv & Hu & Hlo).
  { split; [done|]. rewrite Nat2Z.inj_succ, Z2Nat.id by apply Z.log2_nonneg.
    destruct (Z.eq_dec n 0) as [->|Hne]; [simpl; lia|].
    apply Z.lt_le_trans with (2 ^ Z.succ (Z.log2 n)); [apply Z.log2_spec; lia|].
    apply Z.pow_le_mono_l. lia. }
  rewrite E, app_nil_r. split; [done|]. split; [rewrite Hv; lia|]. by split.
Qed.

(** A number of at least [10^k] has more than [k] digits. *)
Lemma digits_length_lower n k :
  0 <= k -> 10 ^ k <= n -> k < Z.of_nat (length (digits n)).
Proof.
  intros Hk Hn. assert (0 < 10 ^ k) by (apply Z.pow_pos_nonneg; lia).
  destruct (digits_spec n) as (_ & _ & Hu & _); [lia|].
  destruct (Z.lt_ge_cases k (Z.of_nat (length (digits n)))) as [|Hge]; [done|].
  assert (10 ^ Z.of_nat (length (digits n)) <= 10 ^ k) by (apply Z.pow_le_mono_r; lia).
  lia.
Qed.

(** [str(z)] is the decimal notation of [z]: a minus sign when [z] is
    negative, then digits only, which denote [|z|] and have no leading
    zero unless [z] is [0]. *)
Theorem repr_int_decimal_notation (z : Z) :
  repr_int z = (if z <? 0 then [45] else []) ++ digits (Z.abs z) /\
  Forall is_digit (digits (Z.abs z)) /\
  digits_value (digits (Z.abs z)) = Z.abs z /\
  (z = 0 \/ 10 ^ (Z.of_nat (length (digits (Z.abs z))) - 1) <= Z.abs z).
Proof.
  destruct (digits_spec (Z.abs z)) as (Hd & Hv & _ & Hlo); [lia|].
  split; [|split; [done|split; [done|lia]]].
  unfold repr_int. destruct (Z.ltb_spec z 0).
  - by rewrite <- Z.abs_neq by lia.
  - by rewrite Z.abs_eq by lia.
Qed.

(** ** [ceil(log10(n))] *)

Lemma ceil_log10_aux_least (fuel : nat) :
  forall k p n, 0 <= k -> p = 10 ^ k ->
    (forall i, 0 <= i < k -> 10 ^ i < n) ->
    forall i, 0 <= i < ceil_log10_aux fuel k p n -> 10 ^ i < n.
Proof.
  induction fuel as [|fuel IH]; intros k p n Hk Hp Hbelow i Hi.
  - simpl in Hi. destruct (Z.leb_spec n p); by apply Hbelow.
  - cbn [ceil_log10_aux] in Hi. destruct (Z.leb_spec n p) as [|Hlt]; [by apply Hbelow|].
    apply (IH (k + 1) (10 * p) n); [lia | | | exact Hi].
    + rewrite Hp, Z.pow_add_r by lia. simpl (10 ^ 1). lia.
    + intros j Hj. destruct (Z.eq_dec j k) as [->|]; [lia|]. apply Hbelow. lia.
Qed.

(** Below [ceil_log10 n] no power of ten reaches [n]. *)
Lemma ceil_log10_least (n i : Z) : 0 <= i < ceil_log10 n -> 10 ^ i < n.
Proof.
  unfold ceil_log10. apply ceil_log10_aux_least; [lia | done | intros; lia].
Qed.

(** The limit of line 27 is tight: [ceil(log10(2^100000))] is the least
    exponent [c] with [2^100000 <= 10^c], which is exactly the number of
    digits of the upper limit, and [2 * c + 1] is exactly the length of
    the longest decimal text, "{upper limit}.{upper limit}". *)
Theorem digit_limit_is_longest_decimal_text :
  10 ^ (ceil_log10 INT_UPPER_LIMIT - 1) < INT_UPPER_LIMIT /\
  INT_UPPER_LIMIT <= 10 ^ ceil_log10 INT_UPPER_LIMIT /\
  Z.of_nat (length (repr_int INT_UPPER_LIMIT)) = ceil_log10 INT_UPPER_LIMIT /\
  Z.of_nat (length (repr_int INT_UPPER_LIMIT ++ str "." ++ repr_int INT_UPPER_LIMIT))
  = 2 * ceil_log10 INT_UPPER_LIMIT + 1.
Proof.
  pose proof limit_pos as Hpos.
  destruct (ceil_log10_spec INT_UPPER_LIMIT) as [H0 Hle]; [lia|].
  pose proof (limit_not_power_of_10 _ H0) as Hne.
  pose proof limit_digits_large as Hlarge.
  pose proof (ceil_log10_least INT_UPPER_LIMIT (ceil_log10 INT_UPPER_LIMIT - 1)
                ltac:(lia)) as Hlow.
  assert (Z.of_nat (length (digits INT_UPPER_LIMIT)) <= ceil_log10 INT_UPPER_LIMIT) as Hup.
  { apply digits_length; lia. }
  pose proof (digits_length_lower INT_UPPER_LIMIT (ceil_log10 INT_UPPER_LIMIT - 1)
                ltac:(lia) ltac:(lia)) as Hdown.
  split; [exact Hlow|]. split; [exact Hle|].
  unfold repr_int. destruct (Z.ltb_spec INT_UPPER_LIMIT 0); [lia|].
  split; [lia|].
  rewrite !length_app. change (length (str ".")) with 1%nat. lia.
Qed.

(** ** The need for line 27 *)

Lemma randint_run a b st :
  a <= b ->
  randint a b st =
    Some (a + oracle st (pos st) mod (b + 1 - a), set_pos (S (pos st)) st).
Proof.
  intros Hab. unfold randint, bind, randbelow, ret.
  destruct (Z.ltb_spec 0 (b + 1 - a)); [|lia].
  by destruct (Z.leb_spec (b + 1 - a) 0); [lia|].
Qed.

Lemma pow10_4300_lt_limit : 10 ^ 4300 < INT_UPPER_LIMIT.
Proof.
  unfold INT_UPPER_LIMIT. apply Z.lt_trans with (16 ^ 4300).
  - apply Z.pow_lt_mono_l; lia.
  - change 16 with (2 ^ 4). rewrite <- Z.pow_mul_r by lia.
    apply Z.pow_lt_mono_r; lia.
Qed.

(** In an interpreter left at the default limit of 4300 digits, the
    expression of "decimal 1" raises as soon as its first draw has more
    than 4300 digits: the f-string cannot convert it. *)
Theorem decimal_1_needs_raised_limit (st : state) :
  int_max_str_digits st = 4300 ->
  10 ^ 4300 <= oracle st (pos st) <= INT_UPPER_LIMIT ->
  decimal_of_parts "" 0 INT_UPPER_LIMIT 0 INT_UPPER_LIMIT st = None.
Proof.
  intros Hlim [Hlo Hhi].
  pose proof (digits_length_lower (oracle st (pos st)) 4300 (Z.lt_le_incl 0 4300 eq_refl) Hlo) as Hlen.
  assert (0 < 10 ^ 4300) as Hpow by (by apply Z.pow_pos_nonneg).
  set (T := 10 ^ 4300) in Hlo, Hpow. clearbody T.
  unfold decimal_of_parts.
  rewrite (bind_run _ _ _ _ _ (randint_run 0 INT_UPPER_LIMIT st ltac:(lia))).
  rewrite Z.add_0_l, Z.sub_0_r, Z.mod_small by lia.
  unfold bind at 1. unfold format_int.
  change (int_max_str_digits (set_pos (S (pos st)) st)) with (int_max_str_digits st).
  rewrite Hlim, Z.abs_eq by lia.
  destruct (Z.ltb_spec 4300 (Z.of_nat (length (digits (oracle st (pos st)))))); [|lia].
  reflexivity.
Qed.

Lemma decimal_1_needs_raised_limit_witness :
  int_max_str_digits (init (fun _ => 10 ^ 4300)) = 4300 /\
  10 ^ 4300 <= oracle (init (fun _ => 10 ^ 4300)) (pos (init (fun _ => 10 ^ 4300)))
    <= INT_UPPER_LIMIT /\
  decimal_of_parts "" 0 INT_UPPER_LIMIT 0 INT_UPPER_LIMIT (init (fun _ => 10 ^ 4300)) = None.
Proof.
  assert (10 ^ 4300 <= 10 ^ 4300 <= INT_UPPER_LIMIT) as H.
  { split; [apply Z.le_refl | apply Z.lt_le_incl, pow10_4300_lt_limit]. }
  split; [reflexivity|]. split; [exact H|].
  apply decimal_1_needs_raised_limit; [reflexivity | exact H].
Defined.

(** ** [float] of a large integer *)

Lemma float_of_int_nearest (n : Z) :
  2 ^ 53 <= n < 2 ^ 1023 ->
  exists m e,
    (forall st, float_of_int n st = Some (PFloat m e, st)) /\
    e = Z.log2 n - 52 /\ 2 ^ 52 <= m <= 2 ^ 53 /\
    2 * Z.abs (m * 2 ^ e - n) <= 2 ^ e.
Proof.
  intros [Hlo Hhi].
  assert (0 < n) as Hn by (pose proof (Z.pow_pos_nonneg 2 53); lia).
  assert (53 <= Z.log2 n) as HL1 by (by apply Z.log2_le_pow2).
  assert (Z.log2 n < 1023) as HL2 by (by apply Z.log2_lt_pow2).
  unfold float_of_int. rewrite (Z.abs_eq n), (Z.sgn_pos n) by lia.
  set (k := Z.log2 n + 1 - 53).
  replace (Z.log2 n - 52) with k by lia.
  assert (1 <= k) as Hk by lia.
  destruct (Z.leb_spec k 0) as [Hk0|_]; [lia|].
  rewrite Z.shiftr_div_pow2, Z.land_ones, Z.shiftl_1_l by lia.
  set (P := 2 ^ k). set (half := 2 ^ (k - 1)).
  assert (P = 2 * half) as HP.
  { unfold P, half. replace k with (Z.succ (k - 1)) at 1 by lia.
    rewrite Z.pow_succ_r by lia. reflexivity. }
  assert (0 < half) as HH by (apply Z.pow_pos_nonneg; lia).
  set (q := n / P). set (r := n mod P).
  assert (n = P * q + r) as Hdiv by (apply Z.div_mod; lia).
  assert (0 <= r < P) as Hr by (apply Z.mod_pos_bound; lia).
  destruct (Z.log2_spec n Hn) as [Hb1 Hb2].
  assert (2 ^ 52 <= q < 2 ^ 53) as Hq.
  { split.
    - apply Z.div_le_lower_bound; [lia|]. unfold P.
      rewrite <- Z.pow_add_r by lia. by replace (k + 52) with (Z.log2 n) by lia.
    - apply Z.div_lt_upper_bound; [lia|]. unfold P.
      rewrite <- Z.pow_add_r by lia. by replace (k + 53) with (Z.succ (Z.log2 n)) by lia. }
  set (q' := if (half <? r) || ((r =? half) && Z.odd q) then q + 1 else q).
  assert ((q' = q /\ r <= half) \/ (q' = q + 1 /\ half <= r)) as Hq'.
  { unfold q'. destruct (Z.ltb_spec half r); simpl; [right; lia|].
    destruct (Z.eqb_spec r half); simpl; [|left; lia].
    destruct (Z.odd q); [right | left]; lia. }
  assert (q' * P < 2 ^ 1024) as Hfit.
  { apply Z.le_lt_trans with (2 ^ 53 * P).
    - apply Z.mul_le_mono_nonneg_r; lia.
    - unfold P. rewrite <- Z.pow_add_r by lia. apply Z.pow_lt_mono_r; lia. }
  destruct (Z.leb_spec (2 ^ 1024) (q' * P)) as [Hov|_]; [lia|].
  exists q', k. rewrite Z.mul_1_l.
  split; [done|]. split; [done|]. split; [lia|].
  clear Hlo Hhi Hfit Hq Hb1 Hb2. change (2 ^ k) with P.
  destruct Hq' as [[-> Hrr] | [-> Hrr]].
  - replace (q * P - n) with (- r) by lia. rewrite Z.abs_opp, Z.abs_eq; lia.
  - replace ((q + 1) * P - n) with (P - r) by lia. rewrite Z.abs_eq; lia.
Qed.

(** ** Decimal and float entries *)

Lemma stable_float_drawn s a b : stable (float_drawn s a b).
Proof.
  intros st st' v Hx (n & m & e & Hn & Hr & ->).
  exists n, m, e. split; [by eapply stable_drawn|]. by split.
Qed.

Lemma stable_decimal_drawn prefix a b c d : stable (decimal_drawn prefix a b c d).
Proof.
  intros st st' v Hx (x & y & Hdx & Hdy & ->).
  exists x, y. split; [by eapply stable_drawn|]. split; [by eapply stable_drawn | done].
Qed.

Lemma entry_float_nearest a b :
  a <= b -> 2 ^ 53 <= a -> b < 2 ^ 1023 ->
  entry_spec (float_randint a b) (float_drawn false a b).
Proof.
  intros Hab Ha Hb. unfold entry_spec, float_randint.
  eapply builds_bind; [by apply builds_randint_drawn|].
  intros n st Hg Hn.
  pose proof (drawn_range _ _ _ _ Hab Hn) as Hr.
  destruct (float_of_int_nearest n) as (m & e & E & Hnear); [lia|].
  exists (PFloat m e), st. rewrite E.
  split; [done|]. split; [done|]. split; [apply ext_refl|]. split; [exact I|].
  by exists n, m, e.
Qed.

Lemma entry_neg_float_nearest a b :
  a <= b -> 2 ^ 53 <= a -> b < 2 ^ 1023 ->
  entry_spec (let* f := float_randint a b in neg f) (float_drawn true a b).
Proof.
  intros Hab Ha Hb. unfold entry_spec.
  eapply builds_bind; [by apply entry_float_nearest|].
  intros v st Hg (_ & n & m & e & Hn & Hnear & ->). simpl.
  eexists _, _. split; [reflexivity|]. split; [done|]. split; [apply ext_refl|].
  split; [exact I|]. by exists n, m, e.
Qed.

Lemma entry_decimal_text prefix a b c d :
  a <= b -> c <= d ->
  - INT_UPPER_LIMIT <= a -> b <= INT_UPPER_LIMIT ->
  - INT_UPPER_LIMIT <= c -> d <= INT_UPPER_LIMIT ->
  entry_spec (decimal_of_parts prefix a b c d) (decimal_drawn prefix a b c d).
Proof.
  intros Hab Hcd Ha Hb Hc Hd st Hg _.
  set (st1 := set_pos (S (pos st)) st).
  set (st2 := count_conversion st1).
  set (st3 := set_pos (S (pos st2)) st2).
  set (x := a + oracle st (pos st) mod (b + 1 - a)).
  set (y := c + oracle st2 (pos st2) mod (d + 1 - c)).
  assert (good st1) as Hg1 by (by apply good_set_pos).
  assert (good st2) as Hg2 by (by apply good_count_conversion).
  assert (good st3) as Hg3 by (by apply good_set_pos).
  assert (a <= x <= b) as Hx.
  { pose proof (Z.mod_pos_bound (oracle st (pos st)) (b + 1 - a)). unfold x. lia. }
  assert (c <= y <= d) as Hy.
  { pose proof (Z.mod_pos_bound (oracle st2 (pos st2)) (d + 1 - c)). unfold y. lia. }
  exists (PDecimal (str prefix ++ repr_int x ++ str "." ++ repr_int y)),
    (count_conversion st3).
  split.
  { unfold decimal_of_parts.
    rewrite (bind_run _ _ _ _ _ (randint_run a b st Hab)).
    rewrite (bind_run _ _ _ _ _ (format_int_run x st1 (good_limit _ Hg1) ltac:(lia))).
    rewrite (bind_run _ _ _ _ _ (randint_run c d st2 Hcd)).
    rewrite (bind_run _ _ _ _ _ (format_int_run y st3 (good_limit _ Hg3) ltac:(lia))).
    reflexivity. }
  split; [by apply good_count_conversion|].
  split.
  { eapply ext_trans; [apply (ext_set_pos (S (pos st)))|].
    eapply ext_trans; [apply ext_count_conversion|].
    eapply ext_trans; [apply (ext_set_pos (S (pos st2)))|]. apply ext_count_conversion. }
  split; [exact I|].
  exists x, y. split; [by exists (pos st)|]. split; [by exists (pos st2) | done].
Qed.

(** ** Entries read back from the dictionary *)

Lemma points_to_dict_items st v kvs :
  points_to st v (ODict kvs) -> dict_items st v = Some kvs.
Proof. intros (l & -> & Hl). simpl. by rewrite Hl. Qed.

Lemma points_to_elements st v xs :
  points_to st v (OList xs) -> elements st v = Some xs.
Proof. intros (l & -> & Hl). simpl. by rewrite Hl. Qed.

Lemma entry_object_3_shape :
  entry_spec (let* inner := new_dict [] in new_dict [("meow"%string, inner)])
    (fun st v => exists inner, points_to st v (ODict [("meow"%string, inner)]) /\
                               points_to st inner (ODict [])).
Proof.
  eapply builds_bind; [apply (entry_new_dict any_state []); by constructor|].
  intros inner.
  eapply builds_weaken;
    [apply (builds_frame (fun st => value_in st inner)
              (fun st => points_to st inner (ODict [])));
       [|apply (entry_new_dict _ [("meow"%string, inner)])] | | ].
  - intros st st' Hx. by apply stable_points_to.
  - intros st Hv. by repeat constructor.
  - simpl. by intros st [? ?].
  - simpl. intros st v [[Hv Hl] Hp]. split; [done|]. by exists inner.
Qed.

Lemma stable_object_3_shape :
  stable (fun st v => exists inner, points_to st v (ODict [("meow"%string, inner)]) /\
                                    points_to st inner (ODict [])).
Proof.
  intros s s' w Hx (i & H1 & H2). exists i. split; by eapply stable_points_to.
Qed.

Lemma stable_shared_list n :
  stable (fun st v => exists e, list_of (fun _ y => y = e) n st v /\
                                points_to st e (OList [])).
Proof.
  intros s s' w Hx (i & H1 & H2). exists i.
  split; [eapply stable_list_of; [apply stable_pure | exact Hx | exact H1]
         | by eapply stable_points_to].
Qed.

Section RunShapes.

Variables (st : state) (d : pyval).
Hypothesis entries :
  forall k m Q, (k, m) ∈ test_object_items -> stable Q -> entry_spec m Q ->
    exists v, lookup_entry st d k = Some v /\ Q st v.

Lemma literal_in k v :
  (k, ret v) ∈ test_object_items -> val_ok 0 v -> lookup_entry st d k = Some v.
Proof.
  intros Hin Hv.
  destruct (entries k _ _ Hin (stable_pure (fun w => w = v)) (entry_literal v Hv))
    as (w & Hw & ->).
  exact Hw.
Qed.

Lemma new_dict_in k kvs :
  (k, new_dict kvs) ∈ test_object_items -> Forall (fun kv => val_ok 0 kv.2) kvs ->
  exists v, lookup_entry st d k = Some v /\
            dict_items st v =
              Some (fold_left (fun acc kv => assoc_set acc kv.1 kv.2) kvs []).
Proof.
  intros Hin Hk.
  destruct (entries k _ _ Hin (stable_points_to _) (entry_new_dict any_state kvs
              (fun s _ => Forall_impl _ _ _ Hk (fun kv H => val_ok_mono 0 _ _ (Nat.le_0_l _) H))))
    as (v & Hv & Hp).
  exists v. split; [exact Hv|]. by apply points_to_dict_items.
Qed.

Lemma new_list_in k xs :
  (k, new_list xs) ∈ test_object_items -> Forall (val_ok 0) xs ->
  exists v, lookup_entry st d k = Some v /\ elements st v = Some xs.
Proof.
  intros Hin Hk.
  destruct (entries k _ _ Hin (stable_points_to _) (entry_new_list any_state xs
              (fun s _ => Forall_impl _ _ _ Hk (fun x H => val_ok_mono 0 _ _ (Nat.le_0_l _) H))))
    as (v & Hv & Hp).
  exists v. split; [exact Hv|]. by apply points_to_elements.
Qed.

Lemma repeat_list_in k x n :
  (k, repeat_list x n) ∈ test_object_items -> val_ok 0 x -> 0 <= n ->
  exists v xs, lookup_entry st d k = Some v /\ elements st v = Some xs /\
               Z.of_nat (length xs) = n /\ Forall (fun y => y = x) xs.
Proof.
  intros Hin Hx Hn.
  destruct (entries k _ _ Hin (stable_list_of _ (Z.to_nat n) (stable_pure (fun y => y = x)))
              (entry_repeat_list any_state x n
                 (fun s _ => val_ok_mono 0 _ _ (Nat.le_0_l _) Hx)))
    as (v & Hv & Hl).
  apply elements_list_of in Hl as (xs & Hxs & HF & Hlen).
  exists v, xs. split; [exact Hv|]. split; [exact Hxs|]. split; [lia | exact HF].
Qed.

Lemma string_array_in k n len :
  (k, array_of n (utf8_string len)) ∈ test_object_items -> 0 <= n -> 0 <= len ->
  exists v xs, lookup_entry st d k = Some v /\ elements st v = Some xs /\
               Z.of_nat (length xs) = n /\
               Forall (fun x => exists s, x = PStr s /\ Z.of_nat (length s) = len /\
                                          Forall non_surrogate s) xs.
Proof.
  intros Hin Hn Hlen.
  destruct (entries k _ _ Hin
              (stable_list_of _ (Z.to_nat n)
                 (stable_pure (string_of valid_code_point (Z.to_nat len))))
              (entry_array_of n _ _
                 (stable_pure (string_of valid_code_point (Z.to_nat len)))
                 (entry_utf8_string len)))
    as (v & Hv & Hl).
  apply elements_list_of in Hl as (xs & Hxs & HF & Hl).
  exists v, xs. split; [exact Hv|]. split; [exact Hxs|]. split; [lia|].
  eapply Forall_impl; [exact HF|]. intros x (s & -> & Hs & Hsl).
  exists s. split; [done|]. split; [lia|].
  eapply Forall_impl; [exact Hs|]. apply valid_code_point_non_surrogate.
Qed.

Lemma decimal_in k prefix a b c e :
  (k, decimal_of_parts prefix a b c e) ∈ test_object_items ->
  a <= b -> c <= e ->
  - INT_UPPER_LIMIT <= a -> b <= INT_UPPER_LIMIT ->
  - INT_UPPER_LIMIT <= c -> e <= INT_UPPER_LIMIT ->
  exists x y, a <= x <= b /\ c <= y <= e /\
    lookup_entry st d k =
      Some (PDecimal (str prefix ++ repr_int x ++ str "." ++ repr_int y)).
Proof.
  intros Hin Hab Hce Ha Hb Hc He.
  destruct (entries k _ _ Hin (stable_decimal_drawn prefix a b c e)
              (entry_decimal_text prefix a b c e Hab Hce Ha Hb Hc He))
    as (v & Hv & x & y & Hx & Hy & ->).
  exists x, y. split; [by eapply drawn_range|]. split; [by eapply drawn_range|]. exact Hv.
Qed.

Lemma decimal_array_in k n prefix a b c e :
  (k, array_of n (decimal_of_parts prefix a b c e)) ∈ test_object_items -> 0 <= n ->
  a <= b -> c <= e ->
  - INT_UPPER_LIMIT <= a -> b <= INT_UPPER_LIMIT ->
  - INT_UPPER_LIMIT <= c -> e <= INT_UPPER_LIMIT ->
  exists v xs, lookup_entry st d k = Some v /\ elements st v = Some xs /\
    Z.of_nat (length xs) = n /\
    Forall (fun w => exists x y, a <= x <= b /\ c <= y <= e /\
              w = PDecimal (str prefix ++ repr_int x ++ str "." ++ repr_int y)) xs.
Proof.
  intros Hin Hn Hab Hce Ha Hb Hc He.
  destruct (entries k _ _ Hin
              (stable_list_of _ (Z.to_nat n) (stable_decimal_drawn prefix a b c e))
              (entry_array_of n _ _ (stable_decimal_drawn prefix a b c e)
                 (entry_decimal_text prefix a b c e Hab Hce Ha Hb Hc He)))
    as (v & Hv & Hl).
  apply elements_list_of in Hl as (xs & Hxs & HF & Hlen).
  exists v, xs. split; [exact Hv|]. split; [exact Hxs|]. split; [lia|].
  eapply Forall_impl; [exact HF|]. intros w (x & y & Hx & Hy & ->).
  exists x, y. split; [by eapply drawn_range|]. split; [by eapply drawn_range | done].
Qed.

End RunShapes.

(** In every run the entries written as literals have their fixed values
    and shapes. *)
Theorem literal_entries (g : nat -> Z) :
  exists d st,
    build (init g) = Some (d, st) /\
    lookup_entry st d "boolean true" = Some (PBool true) /\
    lookup_entry st d "boolean false" = Some (PBool false) /\
    lookup_entry st d "null" = Some PNone /\
    lookup_entry st d "string 0" = Some (PStr []) /\
    (exists v, lookup_entry st d "object 1" = Some v /\
               dict_items st v = Some [("meow"%string, PStr (str "meow"))]) /\
    (exists v, lookup_entry st d "object 2" = Some v /\ dict_items st v = Some []) /\
    (exists v inner, lookup_entry st d "object 3" = Some v /\
                     dict_items st v = Some [("meow"%string, inner)] /\
                     dict_items st inner = Some []) /\
    (exists v, lookup_entry st d "multi-type array 1" = Some v /\
               elements st v = Some []) /\
    (exists v, lookup_entry st d "null array 1" = Some v /\
               elements st v = Some [PNone]) /\
    (exists v, lookup_entry st d "bool array 1" = Some v /\
               elements st v = Some [PBool true]) /\
    (exists v, lookup_entry st d "bool array 3" = Some v /\
               elements st v = Some [PBool false]).
Proof.
  destruct (build_entries g) as (d & st & E & _ & Hent).
  exists d, st. split; [exact E|].
  split; [apply (literal_in st d Hent); [pick_entry | exact I]|].
  split; [apply (literal_in st d Hent); [pick_entry | exact I]|].
  split; [apply (literal_in st d Hent); [pick_entry | exact I]|].
  split; [apply (literal_in st d Hent _ (PStr [])); [pick_entry | constructor]|].
  split.
  { apply (new_dict_in st d Hent "object 1" [("meow"%string, PStr (str "meow"))]);
      [pick_entry|].
    repeat constructor; unfold valid_code_point; simpl; lia. }
  split; [apply (new_dict_in st d Hent "object 2" []); [pick_entry | constructor]|].
  split.
  { destruct (Hent "object 3"%string _ _ ltac:(pick_entry)
                stable_object_3_shape entry_object_3_shape)
      as (v & Hv & inner & Hp & Hi).
    exists v, inner. split; [exact Hv|].
    split; by apply points_to_dict_items. }
  split; [apply (new_list_in st d Hent "multi-type array 1" []); [pick_entry | constructor]|].
  split; [apply (new_list_in st d Hent "null array 1" [PNone]);
          [pick_entry | by repeat constructor]|].
  split; [apply (new_list_in st d Hent "bool array 1" [PBool true]);
          [pick_entry | by repeat constructor]|].
  apply (new_list_in st d Hent "bool array 3" [PBool false]);
    [pick_entry | by repeat constructor].
Qed.

(** The arrays written as [[x] * 10000] hold 10,000 times the same
    value. *)
Theorem repeated_arrays (g : nat -> Z) :
  exists d st,
    build (init g) = Some (d, st) /\
    (exists v xs, lookup_entry st d "null array 2" = Some v /\
                  elements st v = Some xs /\ Z.of_nat (length xs) = 10000 /\
                  Forall (fun y => y = PNone) xs) /\
    (exists v xs, lookup_entry st d "bool array 2" = Some v /\
                  elements st v = Some xs /\ Z.of_nat (length xs) = 10000 /\
                  Forall (fun y => y = PBool true) xs) /\
    (exists v xs, lookup_entry st d "bool array 4" = Some v /\
                  elements st v = Some xs /\ Z.of_nat (length xs) = 10000 /\
                  Forall (fun y => y = PBool false) xs).
Proof.
  destruct (build_entries g) as (d & st & E & _ & Hent).
  exists d, st. split; [exact E|].
  split; [apply (repeat_list_in st d Hent "null array 2" PNone 10000);
          [pick_entry | exact I | lia]|].
  split; [apply (repeat_list_in st d Hent "bool array 2" (PBool true) 10000);
          [pick_entry | exact I | lia]|].
  apply (repeat_list_in st d Hent "bool array 4" (PBool false) 10000);
    [pick_entry | exact I | lia].
Qed.

(** "multi-type array 2" holds 100 references to one and the same empty
    list object, which is not the array itself. *)
Theorem multi_type_array_2_shares_one_list (g : nat -> Z) :
  exists d st v inner xs,
    build (init g) = Some (d, st) /\
    lookup_entry st d "multi-type array 2" = Some v /\
    elements st v = Some xs /\ length xs = 100%nat /\
    Forall (fun y => y = inner) xs /\
    elements st inner = Some [] /\ inner <> v.
Proof.
  destruct (build_entries g) as (d & st & E & _ & Hent).
  destruct (Hent "multi-type array 2"%string _ _ ltac:(pick_entry)
              (stable_shared_list _) entry_multi_type_array_2)
    as (v & Hv & inner & Hl & Hp).
  apply elements_list_of in Hl as (xs & Hxs & HF & Hlen).
  apply points_to_elements in Hp.
  exists d, st, v, inner, xs.
  split; [exact E|]. split; [exact Hv|]. split; [exact Hxs|].
  split; [exact Hlen|]. split; [exact HF|]. split; [exact Hp|].
  intros ->. rewrite Hxs in Hp.
  apply (f_equal (fun o => match o with Some l => length l | None => 0%nat end)) in Hp.
  simpl in Hp. rewrite Hlen in Hp. discriminate Hp.
Qed.

(** The arrays of random booleans and strings: "bool array 5" holds
    10,000 booleans, "string array 1" 1,000 strings of 100 code points
    and "string array 2" 10,000 strings of 2 code points, none of them a
    surrogate. *)
Theorem random_bool_and_string_arrays (g : nat -> Z) :
  exists d st,
    build (init g) = Some (d, st) /\
    (exists v xs, lookup_entry st d "bool array 5" = Some v /\
                  elements st v = Some xs /\ Z.of_nat (length xs) = 10000 /\
                  Forall (fun y => exists b, y = PBool b) xs) /\
    (exists v xs, lookup_entry st d "string array 1" = Some v /\
                  elements st v = Some xs /\ Z.of_nat (length xs) = 1000 /\
                  Forall (fun x => exists s, x = PStr s /\ Z.of_nat (length s) = 100 /\
                                             Forall non_surrogate s) xs) /\
    (exists v xs, lookup_entry st d "string array 2" = Some v /\
                  elements st v = Some xs /\ Z.of_nat (length xs) = 10000 /\
                  Forall (fun x => exists s, x = PStr s /\ Z.of_nat (length s) = 2 /\
                                             Forall non_surrogate s) xs).
Proof.
  destruct (build_entries g) as (d & st & E & _ & Hent).
  exists d, st. split; [exact E|]. split.
  { destruct (Hent "bool array 5"%string _ _ ltac:(pick_entry)
                (stable_list_of _ _ (stable_pure (fun y => exists b, y = PBool b)))
                entry_bool_array_5)
      as (v & Hv & Hl).
    apply elements_list_of in Hl as (xs & Hxs & HF & Hlen).
    exists v, xs. split; [exact Hv|]. split; [exact Hxs|]. split; [lia | exact HF]. }
  split.
  - apply (string_array_in st d Hent "string array 1" 1000 100); [pick_entry | lia | lia].
  - apply (string_array_in st d Hent "string array 2" 10000 2); [pick_entry | lia | lia].
Qed.

(** The integer entries outside the defined-width bands: the resizing
    integers lie in the ranges between the widths, "unsigned 8-bit defined
    integer" and its array in [[0, 255]], and the arrays labelled
    "negative resizing integer array" and "big integer array" carry the
    sign their labels announce. *)
Theorem resizing_and_8_bit_ranges (g : nat -> Z) :
  exists d st,
    build (init g) = Some (d, st) /\
    int_entry st d "resizing integer 1"
      (fun z => 2 ^ 32 <= z < 2 ^ 56) /\
    int_entry st d "resizing integer 2"
      (fun z => 2 ^ 64 <= z < 2 ^ 2040) /\
    int_entry st d "negative resizing integer 1"
      (fun z => - 2 ^ 56 < z <= - 2 ^ 32) /\
    int_entry st d "negative resizing integer 2"
      (fun z => - 2 ^ 2040 < z <= - 2 ^ 64) /\
    int_entry st d "unsigned 8-bit defined integer" (fun z => 0 <= z <= 255) /\
    int_array_entry st d "unsigned 8-bit defined integer array" 10000
      (fun z => 0 <= z <= 255) /\
    int_array_entry st d "negative resizing integer array" 10000
      (fun z => - 2 ^ 56 < z <= - 2 ^ 32) /\
    int_array_entry st d "big integer array" 100
      (fun z => 2 ^ 2040 <= z <= INT_UPPER_LIMIT).
Proof.
  destruct (build_entries g) as (d & st & E & _ & Hent).
  exists d, st. split; [exact E|].
  repeat apply conj; int_band Hent.
Qed.

(** The decimal entries are made from the text of two integers joined by
    a point: both parts of "decimal 1" are drawn from 0 to the upper
    limit, "decimal 2" puts a minus sign in front of such a text, and each
    of the 100 elements of "decimal array" has an integer part between
    minus the upper limit and the upper limit. *)
Theorem decimal_texts (g : nat -> Z) :
  exists d st,
    build (init g) = Some (d, st) /\
    (exists x y, 0 <= x <= INT_UPPER_LIMIT /\ 0 <= y <= INT_UPPER_LIMIT /\
       lookup_entry st d "decimal 1" =
         Some (PDecimal (str "" ++ repr_int x ++ str "." ++ repr_int y))) /\
    (exists x y, 0 <= x <= INT_UPPER_LIMIT /\ 0 <= y <= INT_UPPER_LIMIT /\
       lookup_entry st d "decimal 2" =
         Some (PDecimal (str "-" ++ repr_int x ++ str "." ++ repr_int y))) /\
    (exists v xs, lookup_entry st d "decimal array" = Some v /\
       elements st v = Some xs /\ Z.of_nat (length xs) = 100 /\
       Forall (fun w => exists x y,
                 - INT_UPPER_LIMIT <= x <= INT_UPPER_LIMIT /\ 0 <= y <= INT_UPPER_LIMIT /\
                 w = PDecimal (str "" ++ repr_int x ++ str "." ++ repr_int y)) xs).
Proof.
  destruct (build_entries g) as (d & st & E & _ & Hent).
  pose proof limit_pos as Hpos.
  exists d, st. split; [exact E|]. split.
  { apply (decimal_in st d Hent "decimal 1" "" 0 INT_UPPER_LIMIT 0 INT_UPPER_LIMIT);
      [pick_entry | lia ..]. }
  split.
  { apply (decimal_in st d Hent "decimal 2" "-" 0 INT_UPPER_LIMIT 0 INT_UPPER_LIMIT);
      [pick_entry | lia ..]. }
  apply (decimal_array_in st d Hent "decimal array" 100 ""
           (- INT_UPPER_LIMIT) INT_UPPER_LIMIT 0 INT_UPPER_LIMIT);
    [pick_entry | lia ..].
Qed.

Lemma nearest_float_large n m e :
  2 ^ 54 <= n -> nearest_float n m e -> 10 ^ 16 <= m * 2 ^ e.
Proof.
  intros Hn (-> & [Hm _] & _).
  assert (54 <= Z.log2 n) as HL by (by apply Z.log2_le_pow2; [lia|]).
  assert (2 ^ 2 <= 2 ^ (Z.log2 n - 52)) as Hp by (apply Z.pow_le_mono_r; lia).
  apply Z.le_trans with (2 ^ 52 * 2 ^ 2); [by vm_compute|].
  apply Z.mul_le_mono_nonneg; lia.
Qed.

(** "decimal 3" is a float: an integer drawn between [2^54] and [2^1000]
    rounded to 53 significant bits, so at least [10^16], where a float is
    written in exponent form; "decimal 4" is the negation of such a
    float. *)
Theorem float_entries (g : nat -> Z) :
  exists d st,
    build (init g) = Some (d, st) /\
    (exists n m e, 2 ^ 54 <= n <= 2 ^ 1000 /\ nearest_float n m e /\
       lookup_entry st d "decimal 3" = Some (PFloat m e) /\
       10 ^ 16 <= m * 2 ^ e) /\
    (exists n m e, 2 ^ 54 <= n <= 2 ^ 1000 /\ nearest_float n m e /\
       lookup_entry st d "decimal 4" = Some (PFloat (- m) e) /\
       - m * 2 ^ e <= - 10 ^ 16).
Proof.
  destruct (build_entries g) as (d & st & E & _ & Hent).
  assert (2 ^ 54 <= 2 ^ 1000) as H1 by (apply Z.pow_le_mono_r; lia).
  assert (2 ^ 53 <= 2 ^ 54) as H2 by (apply Z.pow_le_mono_r; lia).
  assert (2 ^ 1000 < 2 ^ 1023) as H3 by (apply Z.pow_lt_mono_r; lia).
  exists d, st. split; [exact E|]. split.
  - destruct (Hent "decimal 3"%string _ _ ltac:(pick_entry)
                (stable_float_drawn false _ _)
                (entry_float_nearest (2 ^ 54) (2 ^ 1000) H1 H2 H3))
      as (v & Hv & n & m & e & Hn & Hnear & ->).
    apply (drawn_range _ _ _ _ H1) in Hn.
    exists n, m, e. split; [exact Hn|]. split; [exact Hnear|]. split; [exact Hv|].
    apply (nearest_float_large n m e); [apply Hn | exact Hnear].
  - destruct (Hent "decimal 4"%string _ _ ltac:(pick_entry)
                (stable_float_drawn true _ _)
                (entry_neg_float_nearest (2 ^ 54) (2 ^ 1000) H1 H2 H3))
      as (v & Hv & n & m & e & Hn & Hnear & ->).
    apply (drawn_range _ _ _ _ H1) in Hn.
    exists n, m, e. split; [exact Hn|]. split; [exact Hnear|]. split; [exact Hv|].
    pose proof (nearest_float_large n m e (proj1 Hn) Hnear) as Hbig.
    rewrite Z.mul_opp_l. apply Z.opp_le_mono in Hbig. exact Hbig.
Qed.

(** ** The population of code points *)

Lemma length_range_from n a : length (range_from n a) = n.
Proof. revert a. induction n as [|n IH]; intros a; simpl; [done | by rewrite IH]. Qed.

Lemma NoDup_range_from n : forall a, NoDup (range_from n a).
Proof.
  induction n as [|n IH]; intros a; cbn [range_from]; constructor; [|apply IH].
  rewrite elem_of_range_from. lia.
Qed.

(** [VALID_UTF8_CHARS] lists every code point from 0 to 0x10FFFF that is
    not a surrogate, each exactly once: 1,112,064 code points. *)
Theorem VALID_UTF8_CHARS_scalar_values :
  (forall x, x ∈ VALID_UTF8_CHARS <-> non_surrogate x) /\
  NoDup VALID_UTF8_CHARS /\
  Z.of_nat (length VALID_UTF8_CHARS) = 1112064.
Proof.
  unfold VALID_UTF8_CHARS. split; [|split].
  - intros x. rewrite elem_of_app, !elem_of_range. unfold non_surrogate. lia.
  - apply NoDup_app. split; [apply NoDup_range_from|]. split; [|apply NoDup_range_from].
    intros x. rewrite !elem_of_range. lia.
  - unfold range. rewrite length_app, !length_range_from, Nat2Z.inj_add, !Z2Nat.id; lia.
Qed.

(** ** Coverage of the integer bands *)







(** ** Splitting the output *)

Section Splitting.

Variable sep : ascii.

Lemma split_on_no_sep s : has_char sep s = false -> split_on sep s = [s].
Proof.
  induction s as [|c s IH]; simpl; [done|].
  destruct (Ascii.eqb c sep); simpl; [done|]. intros H. by rewrite (IH H).
Qed.

Lemma split_on_sep s rest :
  has_char sep s = false ->
  split_on sep (s +:+ String sep rest) = s :: split_on sep rest.
Proof.
  induction s as [|c s IH]; intros H.
  - change (split_on sep (String sep rest) = "" :: split_on sep rest)%string.
    simpl. by rewrite Ascii.eqb_refl.
  - change (split_on sep (String c (s +:+ String sep rest))
            = String c s :: split_on sep rest).
    simpl in H |- *. destruct (Ascii.eqb c sep); simpl in H; [done|].
    by rewrite (IH H).
Qed.

End Splitting.

Section SplittingRecords.

Variable dumps : json -> string.
Hypothesis one_line : forall j, has_char (ascii_of_nat 10) (dumps j) = false.

Lemma split_records js final :
  split_on (ascii_of_nat 10) (records dumps js +:+ dumps final)
  = map dumps js ++ [dumps final].
Proof.
  induction js as [|j js IH].
  - change (split_on (ascii_of_nat 10) (dumps final) = [dumps final]).
    apply split_on_no_sep, one_line.
  - cbn [records map app]. rewrite !str_app_assoc.
    change (newline +:+ (records dumps js +:+ dumps final))
      with (String (ascii_of_nat 10) (records dumps js +:+ dumps final)).
    rewrite split_on_sep by apply one_line. by rewrite IH.
Qed.

End SplittingRecords.

(** Step 2 of the docstring: when the serializer never writes a newline
    inside a record, splitting the output on the newline character gives
    the serializations of the 57 corpus entries, in order, followed by
    one last piece, the serialization of the whole dictionary. *)
Theorem output_splits_into_records (dumps : json -> string) (g : nat -> Z) :
  (forall j, has_char (ascii_of_nat 10) (dumps j) = false) ->
  exists d st_b entries js st final,
    build (init g) = Some (d, st_b) /\
    dict_items st_b d = Some entries /\
    Forall2 (fun kv j => reify (S (length (heap st_b))) (heap st_b) kv.2 = Some j)
      entries js /\
    main dumps (init g) = Some (tt, st) /\
    reify (S (length (heap st))) (heap st) d = Some final /\
    split_on (ascii_of_nat 10) (stdout st) = map dumps js ++ [dumps final] /\
    length js = 57%nat.
Proof.
  intros Hline.
  pose proof (main_spec dumps g) as H.
  destruct H as (h0 & kvs & js & st_b & st & H). cbv zeta in H.
  destruct H as (E & Hh & Hk & Htrees & Em & Hout & Hheap).
  eexists (PRef (length h0)), st_b,
    (kvs ++ [("multi-type array 3"%string, PRef (length h0 + 1)%nat)]),
    (js ++ [JArr (js ++ [JArr js])]), st, _.
  split; [exact E|].
  split. { unfold dict_items. rewrite Hh.
           rewrite (lookup_after_0 h0 _ (ODict (kvs ++ [("multi-type array 3"%string,
                                                    PRef (length h0 + 1)%nat)])));
             reflexivity. }
  split.
  { rewrite Hh.
    apply (entries_3_trees h0 kvs js _ _ Htrees);
      [apply (lookup_after h0 _ 2); reflexivity
      | apply (lookup_after h0 _ 1); reflexivity
      | rewrite length_app; simpl; lia]. }
  split; [exact Em|].
  split.
  { rewrite Hheap.
    apply (tree_final h0 kvs js Htrees) with (c := (length h0 + 3)%nat);
      [apply (lookup_after h0 _ 2); reflexivity
      | apply (lookup_after h0 _ 1); reflexivity
      | apply lookup_after_0; reflexivity
      | apply (lookup_after h0 _ 3); reflexivity
      | rewrite length_app; simpl; lia]. }
  split; [rewrite Hout; apply (split_records dumps Hline)|].
  apply Forall2_length in Htrees. rewrite length_map in Htrees.
  rewrite length_app, <- Htrees, <- (length_map fst kvs), Hk. reflexivity.
Qed.

Lemma output_splits_into_records_witness :
  exists d st_b entries js st final,
    build (init (fun _ => 0)) = Some (d, st_b) /\
    dict_items st_b d = Some entries /\
    Forall2 (fun kv j => reify (S (length (heap st_b))) (heap st_b) kv.2 = Some j)
      entries js /\
    main (fun _ => "x"%string) (init (fun _ => 0)) = Some (tt, st) /\
    reify (S (length (heap st))) (heap st) d = Some final /\
    split_on (ascii_of_nat 10) (stdout st)
      = map (fun _ => "x"%string) js ++ ["x"%string] /\
    length js = 57%nat.
Proof.
  apply (output_splits_into_records (fun _ => "x"%string) (fun _ => 0)).
  intros j. reflexivity.
Defined.
